(** * The name-classification data layer of
      [Part2_LLMs/02 - Classifier with LSTM - resolvido.ipynb]

    A shallow embedding of the notebook's [NameDataset] class and of its
    [collate_fn]: corpus loading, one-hot encoding of names, decoding by
    [argmax], and batch padding.

    - A Python [str] is a list of Unicode code points ([pystr]).
    - A dict is a [gmap]; a Python list is a [list].
    - A torch tensor is a shape together with its row-major contents.  The
      tensors built here only hold 0 and 1 (and class indices), so entries
      are integers.
    - A Python exception is a value of [pyerror]; code that can raise
      returns a [result]. *)

From Stdlib Require Import Ascii String.
From stdpp Require Import base numbers option list gmap.

Local Open Scope Z_scope.
Local Open Scope nat_scope.

(** ** Python values *)

Abbreviation pychar := N (only parsing).
Abbreviation pystr := (list N) (only parsing).

(** A string literal, read as its code points. *)
Definition str (s : string) : pystr :=
  N_of_ascii <$> list_ascii_of_string s.

Inductive pyerror :=
  | IOError        (* alias of OSError *)
  | IndexError
  | KeyError
  | TypeError
  | ValueError
  | RuntimeError.

Definition result (A : Type) : Type := pyerror + A.
Definition Ok {A} (a : A) : result A := inr a.
Definition Raise {A} (e : pyerror) : result A := inl e.

Definition rbind {A B} (m : result A) (k : A → result B) : result B :=
  match m with
  | inl e => inl e
  | inr a => k a
  end.

Notation "'let*' x ':=' m 'in' k" := (rbind m (fun x => k))
  (at level 10, x pattern, m at level 100, k at level 200).

(** Left-to-right loops that stop at the first exception. *)
Fixpoint foldM {A S} (f : S → A → result S) (s : S) (l : list A) : result S :=
  match l with
  | [] => Ok s
  | x :: l' => let* s' := f s x in foldM f s' l'
  end.

Fixpoint mapM {A B} (f : A → result B) (l : list A) : result (list B) :=
  match l with
  | [] => Ok []
  | x :: l' => let* y := f x in let* ys := mapM f l' in Ok (y :: ys)
  end.

(** [enumerate(l)] *)
Definition enumerate_from {A} (k : nat) (l : list A) : list (nat * A) :=
  zip (seq k (length l)) l.
Definition enumerate {A} (l : list A) : list (nat * A) := enumerate_from 0 l.

(** [s[i]] on a sequence: a negative index counts from the end. *)
Definition py_getitem {A} (s : list A) (i : Z) : result A :=
  let n := Z.of_nat (length s) in
  let j := if (i <? 0)%Z then (i + n)%Z else i in
  if ((0 <=? j) && (j <? n))%Z then
    match s !! Z.to_nat j with
    | Some c => Ok c
    | None => Raise IndexError
    end
  else Raise IndexError.

(** ** Tensors *)

Record tensor := mkTensor { shape : list nat; entries : list Z }.

Definition numel (dims : list nat) : nat := foldr Nat.mul 1 dims.

(** [torch.zeros(dims)] *)
Definition zeros (dims : list nat) : tensor :=
  mkTensor dims (replicate (numel dims) 0%Z).

(** [torch.tensor([v])] *)
Definition tensor1 (v : Z) : tensor := mkTensor [1] [v].

(** [t[i][j][k] = v] on a tensor of rank three (the only rank it is used
    at); an index out of its dimension raises. *)
Definition setitem3 (t : tensor) (i j k : nat) (v : Z) : result tensor :=
  match shape t with
  | [a; b; c] =>
      if decide (i < a ∧ j < b ∧ k < c)
      then Ok (mkTensor (shape t) (<[(i * b + j) * c + k := v]> (entries t)))
      else Raise IndexError
  | _ => Raise IndexError
  end.

(** [t.squeeze()]: every dimension of extent 1 is removed. *)
Definition squeeze (t : tensor) : tensor :=
  mkTensor (filter (λ d, d ≠ 1) (shape t)) (entries t).

(** [t[i]] for [0 <= i]: the [i]-th slice along the first dimension. *)
Definition select (t : tensor) (i : nat) : result tensor :=
  match shape t with
  | [] => Raise IndexError
  | d :: rest =>
      if decide (i < d)
      then Ok (mkTensor rest (take (numel rest) (drop (i * numel rest) (entries t))))
      else Raise IndexError
  end.

(** [t[:k]] for [0 <= k]: the first [k] slices along the first dimension. *)
Definition slice_to (t : tensor) (k : nat) : result tensor :=
  match shape t with
  | [] => Raise IndexError
  | d :: rest =>
      Ok (mkTensor (min k d :: rest) (take (min k d * numel rest) (entries t)))
  end.

(** Index of the first maximal entry of a row. *)
Fixpoint argmax_from (best_i : nat) (best_v : Z) (i : nat) (l : list Z) : nat :=
  match l with
  | [] => best_i
  | x :: r =>
      if (best_v <? x)%Z then argmax_from i x (S i) r
      else argmax_from best_i best_v (S i) r
  end.

Definition argmax_row (l : list Z) : nat :=
  match l with
  | [] => 0
  | x :: r => argmax_from 0 x 1 r
  end.

(** The contents cut into [count] rows of [n] entries. *)
Fixpoint chunks (n count : nat) (l : list Z) : list (list Z) :=
  match count with
  | 0 => []
  | S c => take n l :: chunks n c (drop n l)
  end.

(** [torch.argmax(t, dim=-1)]: the last dimension is reduced.  A tensor
    of rank 0 gives the rank-0 index 0; an empty last dimension raises. *)
Definition argmax_last (t : tensor) : result tensor :=
  match last (shape t) with
  | None => Ok (mkTensor [] [0%Z])
  | Some n =>
      let pre := removelast (shape t) in
      if decide (n = 0) then Raise IndexError
      else Ok (mkTensor pre
                 ((λ row, Z.of_nat (argmax_row row)) <$> chunks n (numel pre) (entries t)))
  end.

(** [for x in t]: the slices along the first dimension; a tensor of rank 0
    cannot be iterated. *)
Definition tensor_iter (t : tensor) : result (list tensor) :=
  match shape t with
  | [] => Raise TypeError
  | d :: rest =>
      Ok ((λ i, mkTensor rest (take (numel rest) (drop (i * numel rest) (entries t))))
            <$> seq 0 d)
  end.

(** A tensor used as a sequence index ([__index__]): it must hold exactly
    one element. *)
Definition tensor_index (t : tensor) : result Z :=
  match entries t with
  | [v] => Ok v
  | _ => Raise TypeError
  end.

(** ** The alphabet *)

Definition ascii_lowercase : pystr := str "abcdefghijklmnopqrstuvwxyz".
Definition ascii_uppercase : pystr := str "ABCDEFGHIJKLMNOPQRSTUVWXYZ".
Definition ascii_letters : pystr := ascii_lowercase ++ ascii_uppercase.

(** [self.all_letters], [self.n_letters], [self.NULL_IDX] and
    [self.letter2idx]: the same for every instance of [NameDataset]. *)
Definition all_letters : pystr := str "-" ++ ascii_letters ++ str " .,;'".
Definition n_letters : nat := length all_letters.
Definition NULL_IDX : nat := 0.

(** [{x: idx for idx, x in enumerate(l)}] *)
Definition dict_of_enumerate `{Countable K} (l : list K) : gmap K nat :=
  foldl (λ m '(idx, x), <[x := idx]> m) ∅ (enumerate l).

(** [{idx: x for idx, x in enumerate(l)}] *)
Definition dict_of_indices {V} (l : list V) : gmap nat V :=
  foldl (λ m '(idx, x), <[idx := x]> m) ∅ (enumerate l).

Definition letter2idx : gmap pychar nat := dict_of_enumerate all_letters.

(** [self.letter2idx.get(letter, self.NULL_IDX)] *)
Definition letter_index (letter : pychar) : nat :=
  default NULL_IDX (letter2idx !! letter).

(** ** Encoding and decoding *)

(** [name_to_tensor]: a [len(name) x 1 x n_letters] tensor of zeros with a
    1 stored at each letter's index. *)
Definition name_to_tensor (name : pystr) : result tensor :=
  foldM (λ t '(li, letter), setitem3 t li 0 (letter_index letter) 1%Z)
        (zeros [length name; 1; n_letters])
        (enumerate name).

(** [''.join(self.all_letters[i] for i in idx)] *)
Definition join_letters (idx : tensor) : result pystr :=
  let* items := tensor_iter idx in
  mapM (λ i, let* k := tensor_index i in py_getitem all_letters k) items.

(** [tensor_to_name] *)
Definition tensor_to_name (t : tensor) : result pystr :=
  let* idx := argmax_last t in
  join_letters idx.


(** ** Text helpers of the Python library used by the loader *)

(** [str.isspace] on one code point, as [str.strip()] uses it. *)
Definition is_space (c : pychar) : bool :=
  ((9 <=? c) && (c <=? 13) || (28 <=? c) && (c <=? 32)
   || (c =? 133) || (c =? 160) || (c =? 5760)
   || (8192 <=? c) && (c <=? 8202)
   || (c =? 8232) || (c =? 8233) || (c =? 8239) || (c =? 8287)
   || (c =? 12288))%N.

Fixpoint lstrip (s : pystr) : pystr :=
  match s with
  | [] => []
  | c :: r => if is_space c then lstrip r else s
  end.

Definition rstrip (s : pystr) : pystr := reverse (lstrip (reverse s)).

(** [s.strip()] *)
Definition strip (s : pystr) : pystr := rstrip (lstrip s).

Definition newline : pychar := 10%N.

(** [s.split('\n')]: never the empty list; the empty string gives one
    empty line. *)
Fixpoint split_nl (s : pystr) : list pystr :=
  match s with
  | [] => [[]]
  | c :: r =>
      if decide (c = newline) then [] :: split_nl r
      else match split_nl r with
           | [] => [[c]]
           | l :: ls => (c :: l) :: ls
           end
  end.

Definition slash : pychar := 47%N.
Definition dot : pychar := 46%N.

(** [os.path.basename(p)]: what follows the last slash. *)
Fixpoint basename (p : pystr) : pystr :=
  match p with
  | [] => []
  | c :: r =>
      if decide (slash ∈ r) then basename r
      else if decide (c = slash) then r else p
  end.

(** [p.rfind(c)] *)
Fixpoint rfind_from (c : pychar) (i : nat) (acc : option nat) (p : pystr) : option nat :=
  match p with
  | [] => acc
  | x :: r => rfind_from c (S i) (if decide (x = c) then Some i else acc) r
  end.
Definition rfind (c : pychar) (p : pystr) : option nat := rfind_from c 0 None p.

(** [os.path.splitext(p)[0]]: the path without its extension; the last dot
    starts an extension unless only dots precede it in the file name. *)
Definition splitext_root (p : pystr) : pystr :=
  match rfind dot p with
  | None => p
  | Some d =>
      let start := from_option S 0 (rfind slash p) in
      if decide (start ≤ d) then
        if forallb (λ c, bool_decide (c = dot)) (take (d - start) (drop start p))
        then p else take d p
      else p
  end.

(** What the loader needs of [unicodedata]: canonical decomposition and the
    test for the general category [Mn] (nonspacing mark).  The library is
    not part of the notebook, so it is an interface; the decomposition of
    the empty string is empty. *)
Class Unicodedata := {
  normalize_NFD : pystr → pystr;
  category_is_Mn : pychar → bool;
  normalize_NFD_nil : normalize_NFD [] = [];
}.

(** A fragment of the library's tables, enough to run examples: ASCII is
    left as it is, a few precomposed Latin-1 letters are decomposed, and the
    combining diacritical marks U+0300..U+036F are the nonspacing marks.
    It is exact on strings made of ASCII and of the listed letters. *)
Definition decompose_latin (c : pychar) : pystr :=
  if decide (c = 225%N) then [97%N; 769%N]        (* a acute *)
  else if decide (c = 231%N) then [99%N; 807%N]   (* c cedilla *)
  else if decide (c = 233%N) then [101%N; 769%N]  (* e acute *)
  else if decide (c = 241%N) then [110%N; 771%N]  (* n tilde *)
  else if decide (c = 246%N) then [111%N; 776%N]  (* o diaeresis *)
  else if decide (c = 252%N) then [117%N; 776%N]  (* u diaeresis *)
  else [c].

Definition latin_unicodedata : Unicodedata :=
  {| normalize_NFD := λ s, concat (decompose_latin <$> s);
     category_is_Mn := λ c, ((768 <=? c) && (c <=? 879))%N;
     normalize_NFD_nil := eq_refl |}.

(** The files seen by the loader: [glob.glob(pattern)] lists the matching
    paths in the order of the enumeration, and
    [open(f, encoding='utf-8').read()] gives a file's text or raises. *)
Record filesystem := {
  glob : pystr → list pystr;
  read_text : pystr → result pystr;
}.

(** ** The dataset *)

(** The attributes of an instance set from the files. *)
Record NameDataset := mkNameDataset {
  cat2idx : gmap pystr nat;
  idx2cat : gmap nat pystr;
  data : list (pystr * pystr);
}.

Section Loader.
Context `{U : Unicodedata}.

(** [unicode_to_ascii] *)
Definition unicode_to_ascii (s : pystr) : pystr :=
  filter (λ c, category_is_Mn c = false) (normalize_NFD s).

(** The lines of one file: the whole text is stripped once, then cut at
    the newlines. *)
Definition file_lines (content : pystr) : list pystr :=
  split_nl (strip content).

(** [os.path.splitext(os.path.basename(filename))[0]] *)
Definition category_of (filename : pystr) : pystr :=
  splitext_root (basename filename).

(** One turn of the outer loop of [load_data]. *)
Definition load_file (fs : filesystem) (st : NameDataset)
    (entry : nat * pystr) : result NameDataset :=
  let '(idx, filename) := entry in
  let category := category_of filename in
  let cat2idx' := <[category := idx]> (cat2idx st) in
  let idx2cat' := <[idx := category]> (idx2cat st) in
  let* content := read_text fs filename in
  Ok (mkNameDataset cat2idx' idx2cat'
        (foldl (λ d line, d ++ [(unicode_to_ascii line, category)])
               (data st) (file_lines content))).

(** [load_data] *)
Definition load_data (fs : filesystem) (path : pystr) : result NameDataset :=
  foldM (load_file fs) (mkNameDataset ∅ ∅ []) (enumerate (glob fs path)).

(** [NameDataset(data_path)] *)
Definition NameDataset_init (fs : filesystem) (data_path : pystr)
  : result NameDataset := load_data fs data_path.
End Loader.

(** [__len__] *)
Definition NameDataset_len (self : NameDataset) : nat := length (data self).

(** [self.cat2idx[category]] *)
Definition dict_getitem `{Countable K} {V} (m : gmap K V) (k : K) : result V :=
  match m !! k with
  | Some v => Ok v
  | None => Raise KeyError
  end.

(** [__getitem__] *)
Definition NameDataset_getitem (self : NameDataset) (idx : Z)
  : result (tensor * tensor) :=
  let* item := py_getitem (data self) idx in
  let '(name, category) := item in
  let* name := name_to_tensor name in
  let* k := dict_getitem (cat2idx self) category in
  Ok (name, tensor1 (Z.of_nat k)).

(** ** Batching *)

(** [torch.nn.utils.rnn.pad_sequence(seqs, batch_first=True,
    padding_value=pad)]: the result has shape [B x T x trailing], where [T]
    is the longest first dimension and [trailing] the other dimensions of
    the first sequence, which all sequences must share. *)
Definition pad_sequence (seqs : list tensor) (pad : Z) : result tensor :=
  match seqs with
  | [] => Raise RuntimeError
  | first :: _ =>
      match shape first with
      | [] => Raise RuntimeError
      | _ :: trailing =>
          if forallb (λ t, bool_decide (tail (shape t) = trailing
                                        ∧ shape t ≠ [])) seqs
          then
            let T := max_list ((λ t, hd 0 (shape t)) <$> seqs) in
            Ok (mkTensor (length seqs :: T :: trailing)
                  (concat ((λ t, entries t ++
                     replicate ((T - hd 0 (shape t)) * numel trailing) pad) <$> seqs)))
          else Raise RuntimeError
      end
  end.

(** [torch.cat(ts)] along the first dimension.  An empty tensor of rank
    one is left out, whatever the shape of the others. *)
Definition torch_cat (ts : list tensor) : result tensor :=
  match ts with
  | [] => Raise RuntimeError
  | _ :: _ =>
      let kept := filter (λ t, shape t ≠ [0]) ts in
      match kept with
      | [] => Ok (mkTensor [0] [])
      | first :: _ =>
          match shape first with
          | [] => Raise RuntimeError
          | _ :: trailing =>
              if forallb (λ t, bool_decide (tail (shape t) = trailing
                                            ∧ shape t ≠ [])) kept
              then Ok (mkTensor (sum_list ((λ t, hd 0 (shape t)) <$> kept) :: trailing)
                         (concat (entries <$> kept)))
              else Raise RuntimeError
          end
      end
  end.

(** [names, categories = zip( *batch)]: an empty batch has nothing to
    unpack. *)
Definition unzip_batch (batch : list (tensor * tensor))
  : result (list tensor * list tensor) :=
  match batch with
  | [] => Raise ValueError
  | _ => Ok (batch.*1, batch.*2)
  end.

(** [collate_fn] *)
Definition collate_fn (batch : list (tensor * tensor)) : result (tensor * tensor) :=
  let* nc := unzip_batch batch in
  let '(names, categories) := nc in
  let* padded := pad_sequence names (Z.of_nat NULL_IDX) in
  let names_padded := squeeze padded in
  let* categories := torch_cat categories in
  Ok (names_padded, categories).

(** ** Expressions of the specification over the code *)

(** The one-hot row stored for a letter. *)
Definition one_hot (k : nat) : list Z := <[k := 1%Z]> (replicate n_letters 0%Z).

Definition hyphen : pychar := 45%N.

(** What a character decodes to after encoding. *)
Definition sanitize (c : pychar) : pychar :=
  if decide (c ∈ all_letters) then c else hyphen.

(** [tensor_to_name(name_to_tensor(text))] *)
Definition decode_encoded (text : pystr) : result pystr :=
  let* t := name_to_tensor text in
  tensor_to_name t.

(** The rows that encode a text, and the same padded to [T] rows. *)
Definition encoded (text : pystr) : list Z :=
  concat ((λ c, one_hot (letter_index c)) <$> text).

Definition padded (T : nat) (text : pystr) : list Z :=
  encoded text ++ replicate ((T - length text) * n_letters) 0%Z.

(** The length of the longest text. *)
Definition longest (texts : list pystr) : nat := max_list (length <$> texts).

(** The batch built from texts and their category indices, each item being
    what [__getitem__] returns for it. *)
Definition batch_of_texts (items : list (pystr * nat)) : result (tensor * tensor) :=
  let* batch := mapM (λ '(text, k),
                        let* name := name_to_tensor text in
                        Ok (name, tensor1 (Z.of_nat k))) items in
  collate_fn batch.

(** [tensor_to_name(names[i][:len])] *)
Definition decode_item (names : tensor) (i len : nat) : result pystr :=
  let* row := select names i in
  let* prefix := slice_to row len in
  tensor_to_name prefix.

(** The items a file contributes: one per line of its stripped text. *)
Definition items_of_file `{U : Unicodedata} (filename content : pystr)
  : list (pystr * pystr) :=
  (λ line, (unicode_to_ascii line, category_of filename)) <$> file_lines content.

Definition count_newlines (s : pystr) : nat :=
  length (filter (λ c, c = newline) s).

(** A tensor of indices that [join_letters] reads one index at a time: a
    first axis, followed by axes of extent 1 only. *)
Definition index_sequence (ix : tensor) : Prop :=
  ∃ rest, shape ix = length (entries ix) :: rest ∧ numel rest = 1.

(** ** Example file systems *)

Definition text_lines (lines : list string) : pystr :=
  concat ((λ l, str l ++ [newline]) <$> lines).

(** [English.txt] with Smith and Jones, then [Italian.txt] with Rossi. *)
Definition fs_two_categories : filesystem :=
  {| glob := λ _, [str "data/names/English.txt"; str "data/names/Italian.txt"];
     read_text := λ f,
       if decide (f = str "data/names/English.txt")
       then Ok (text_lines ["Smith"; "Jones"]%string)
       else if decide (f = str "data/names/Italian.txt")
       then Ok (text_lines ["Rossi"]%string)
       else Raise IOError |}.

(** A pattern that matches nothing. *)
Definition fs_no_match : filesystem :=
  {| glob := λ _, []; read_text := λ _, Raise IOError |}.

(** Two directories holding a file of the same name. *)
Definition fs_same_stem : filesystem :=
  {| glob := λ _, [str "data/a/English.txt"; str "data/b/English.txt"];
     read_text := λ _, Ok (text_lines ["Smith"]%string) |}.

(** One file with a line that ends in a blank, a blank line inside, and a
    line made of a lone combining acute accent. *)
Definition english_txt : pystr := str "data/names/English.txt".

Definition blank_lines_text : pystr :=
  str "Smith " ++ [newline; newline] ++ str "Jones" ++ [newline]
  ++ [769%N; newline] ++ str "Brown" ++ [newline].

Definition fs_blank_lines : filesystem :=
  {| glob := λ _, [english_txt];
     read_text := λ _, Ok blank_lines_text |}.

(** ** The other operations of the notebook *)

(** [t[i][j] = v] on a tensor of rank two; an index out of its dimension
    raises. *)
Definition setitem2 (t : tensor) (i j : nat) (v : Z) : result tensor :=
  match shape t with
  | [a; b] =>
      if decide (i < a ∧ j < b)
      then Ok (mkTensor (shape t) (<[i * b + j := v]> (entries t)))
      else Raise IndexError
  | _ => Raise IndexError
  end.

(** [letter_to_tensor]: a [1 x n_letters] tensor of zeros with a 1 stored
    at the letter's index. *)
Definition letter_to_tensor (letter : pychar) : result tensor :=
  setitem2 (zeros [1; n_letters]) 0 (letter_index letter) 1%Z.

(** [t.unsqueeze(0)] *)
Definition unsqueeze0 (t : tensor) : tensor :=
  mkTensor (1 :: shape t) (entries t).

(** [t.item()]: the value of a tensor that holds one element. *)
Definition tensor_item (t : tensor) : result Z :=
  match entries t with
  | [v] => Ok v
  | _ => Raise RuntimeError
  end.

(** [d[k]] for a dict with index keys and an integer [k]. *)
Definition dict_getitem_int {V} (m : gmap nat V) (k : Z) : result V :=
  if (k <? 0)%Z then Raise KeyError else dict_getitem m (Z.to_nat k).

(** What the notebook prints for an item:
    [name, category = dataset[idx]] and then
    [dataset.tensor_to_name(name), dataset.idx2cat[category.item()]]. *)
Definition show_item (self : NameDataset) (idx : Z) : result (pystr * pystr) :=
  let* item := NameDataset_getitem self idx in
  let '(name, category) := item in
  let* text := tensor_to_name name in
  let* k := tensor_item category in
  let* label := dict_getitem_int (idx2cat self) k in
  Ok (text, label).

(** The input given to the model for one name:
    [dataset.name_to_tensor(name).squeeze().unsqueeze(0)]. *)
Definition model_input (name : pystr) : result tensor :=
  let* t := name_to_tensor name in
  Ok (unsqueeze0 (squeeze t)).

(** The name shown beside a prediction:
    [dataset.tensor_to_name(name_tensor[0])] on the model's input. *)
Definition shown_name (name : pystr) : result pystr :=
  let* name_tensor := model_input name in
  let* row := select name_tensor 0 in
  tensor_to_name row.

(** [dataset.tensor_to_name(names[i])]: a whole padded sequence of a batch,
    decoded. *)
Definition decode_sequence (names : tensor) (i : nat) : result pystr :=
  let* row := select names i in
  tensor_to_name row.

(** [k] is the position of the first greatest entry of [row]. *)
Definition first_max (row : list Z) (k : nat) : Prop :=
  ∃ m, row !! k = Some m
       ∧ (∀ j v, row !! j = Some v → (v ≤ m)%Z)
       ∧ (∀ j v, j < k → row !! j = Some v → (v < m)%Z).

(** A file is readable when its text can be read. *)
Definition readable (fs : filesystem) (f : pystr) : Prop :=
  ∃ content, read_text fs f = Ok content.

(** English.txt can be read, Italian.txt cannot. *)
Definition fs_unreadable : filesystem :=
  {| glob := λ _, [str "data/names/English.txt"; str "data/names/Italian.txt"];
     read_text := λ f,
       if decide (f = str "data/names/English.txt")
       then Ok (text_lines ["Smith"; "Jones"]%string)
       else Raise IOError |}.

(** One file that holds blanks only. *)
Definition fs_blank_file : filesystem :=
  {| glob := λ _, [english_txt];
     read_text := λ _, Ok (str "  " ++ [newline]) |}.

(** * Properties *)

(** ** The model run on what the notebook prints *)

(** The first item printed by the notebook has shape [3, 1, 58] and decodes
    to Abl. *)
Example first_item_of_the_notebook :
  ∃ t, name_to_tensor (str "Abl") = Ok t
       ∧ shape t = [3; 1; 58]
       ∧ tensor_to_name t = Ok (str "Abl").
Proof. eexists. split; [reflexivity|]. by vm_compute. Qed.

Example category_of_a_data_file :
  category_of (str "data/names/Czech.txt") = str "Czech".
Proof. by vm_compute. Qed.

(** Jos followed by e acute is stored as Jose. *)
Example accents_are_removed :
  @unicode_to_ascii latin_unicodedata (str "Jos" ++ [233%N]) = str "Jose".
Proof. by vm_compute. Qed.

(** ** Loops in the exception monad *)

Lemma rbind_ok {A B} (m : result A) (k : A → result B) (b : B) :
  rbind m k = Ok b → ∃ a, m = Ok a ∧ k a = Ok b.
Proof. destruct m as [e|a]; [discriminate|]. intros Hk. by exists a. Qed.

Lemma foldM_app {A S} (f : S → A → result S) (s : S) (l1 l2 : list A) :
  foldM f s (l1 ++ l2) = let* s' := foldM f s l1 in foldM f s' l2.
Proof.
  revert s. induction l1 as [|x l1 IH]; intros s; [done|].
  cbn [foldM app]. destruct (f s x) as [e|s']; [done|]. apply IH.
Qed.

Lemma mapM_ok {A B} (f : A → result B) (g : A → B) (l : list A) :
  Forall (λ x, f x = Ok (g x)) l → mapM f l = Ok (g <$> l).
Proof.
  induction 1 as [|x l Hx _ IH]; [done|].
  cbn [mapM]. by rewrite Hx, IH.
Qed.

Lemma mapM_fmap {A B C} (f : B → result C) (g : A → B) (l : list A) :
  mapM f (g <$> l) = mapM (f ∘ g) l.
Proof. induction l as [|x l IH]; [done|]. cbn [mapM fmap list_fmap]. by rewrite <- IH. Qed.

Lemma mapM_ext {A B} (f g : A → result B) (l : list A) :
  Forall (λ x, f x = g x) l → mapM f l = mapM g l.
Proof. induction 1 as [|x l Hx _ IH]; [done|]. cbn [mapM]. by rewrite Hx, IH. Qed.

Lemma enumerate_from_cons {A} (k : nat) (x : A) (l : list A) :
  enumerate_from k (x :: l) = (k, x) :: enumerate_from (S k) l.
Proof. done. Qed.

Lemma enumerate_from_snoc {A} (k : nat) (l : list A) (x : A) :
  enumerate_from k (l ++ [x]) = enumerate_from k l ++ [(k + length l, x)].
Proof.
  revert k. induction l as [|y l IH]; intros k.
  - cbn. by rewrite Nat.add_0_r.
  - cbn [app]. rewrite !enumerate_from_cons, IH. cbn [app length].
    by rewrite Nat.add_succ_comm.
Qed.

(** ** The alphabet and its index table *)

Lemma dict_of_enumerate_snoc `{Countable K} (l : list K) (x : K) :
  dict_of_enumerate (l ++ [x]) = <[x := length l]> (dict_of_enumerate l).
Proof.
  unfold dict_of_enumerate, enumerate.
  by rewrite enumerate_from_snoc, foldl_app.
Qed.

Lemma dict_of_enumerate_lookup `{Countable K} (l : list K) (c : K) (i : nat) :
  NoDup l → dict_of_enumerate l !! c = Some i ↔ l !! i = Some c.
Proof.
  induction l as [|x l IH] using rev_ind; intros Hnd.
  - unfold dict_of_enumerate. cbn. by rewrite lookup_empty.
  - apply NoDup_app in Hnd as (Hl & Hx & _).
    rewrite dict_of_enumerate_snoc.
    destruct (decide (c = x)) as [->|Hne].
    + rewrite lookup_insert_eq. split.
      * intros [= <-]. by rewrite list_lookup_middle.
      * intros Hi. f_equal.
        destruct (decide (i < length l)) as [Hlt|Hge].
        -- rewrite lookup_app_l in Hi by done.
           exfalso. apply (Hx x); [by eapply list_elem_of_lookup_2|apply list_elem_of_here].
        -- apply lookup_lt_Some in Hi. rewrite length_app in Hi. cbn in Hi. lia.
    + rewrite lookup_insert_ne by done. rewrite IH by done. split.
      * intros Hi. by apply lookup_app_l_Some.
      * intros Hi. apply lookup_app_Some in Hi as [Hi|[_ Hi]]; [done|].
        apply list_lookup_singleton_Some in Hi as [_ ->]. done.
Qed.

Lemma dict_of_enumerate_None `{Countable K} (l : list K) (c : K) :
  c ∉ l → dict_of_enumerate l !! c = None.
Proof.
  induction l as [|x l IH] using rev_ind; intros Hc.
  - unfold dict_of_enumerate. cbn. by rewrite lookup_empty.
  - rewrite dict_of_enumerate_snoc. rewrite not_elem_of_app in Hc.
    destruct Hc as [Hl Hx]. rewrite lookup_insert_ne by set_solver. auto.
Qed.

Lemma dict_of_indices_snoc {V} (l : list V) (x : V) :
  dict_of_indices (l ++ [x]) = <[length l := x]> (dict_of_indices l).
Proof.
  unfold dict_of_indices, enumerate.
  by rewrite enumerate_from_snoc, foldl_app.
Qed.

Lemma dict_of_indices_lookup {V} (l : list V) (i : nat) :
  dict_of_indices l !! i = l !! i.
Proof.
  induction l as [|x l IH] using rev_ind.
  - unfold dict_of_indices. cbn. by rewrite lookup_empty.
  - rewrite dict_of_indices_snoc.
    destruct (decide (i = length l)) as [->|Hne].
    + by rewrite lookup_insert_eq, list_lookup_middle.
    + rewrite lookup_insert_ne by done. rewrite IH.
      destruct (decide (i < length l)).
      * by rewrite lookup_app_l.
      * rewrite !lookup_ge_None_2; [done|rewrite length_app; cbn; lia|lia].
Qed.

Lemma all_letters_NoDup : NoDup all_letters.
Proof. apply (bool_decide_unpack _). by vm_compute. Qed.

Lemma letter2idx_lookup (c : pychar) (i : nat) :
  letter2idx !! c = Some i ↔ all_letters !! i = Some c.
Proof. apply dict_of_enumerate_lookup, all_letters_NoDup. Qed.

Lemma n_letters_pos : 0 < n_letters.
Proof. vm_compute. lia. Qed.

Lemma letter_index_lt (c : pychar) : letter_index c < n_letters.
Proof.
  unfold letter_index. destruct (letter2idx !! c) as [i|] eqn:Hi; cbn.
  - apply letter2idx_lookup in Hi. by apply lookup_lt_Some in Hi.
  - apply n_letters_pos.
Qed.

Lemma letter_index_in (c : pychar) :
  c ∈ all_letters → all_letters !! letter_index c = Some c.
Proof.
  intros Hc. apply list_elem_of_lookup in Hc as [i Hi].
  unfold letter_index. apply letter2idx_lookup in Hi as Hi'. by rewrite Hi'.
Qed.

Lemma letter_index_notin (c : pychar) :
  c ∉ all_letters → letter_index c = NULL_IDX.
Proof.
  intros Hc. unfold letter_index, letter2idx.
  by rewrite dict_of_enumerate_None.
Qed.

Lemma all_letters_head : all_letters !! NULL_IDX = Some hyphen.
Proof. done. Qed.

Lemma hyphen_in_all_letters : hyphen ∈ all_letters.
Proof. eapply list_elem_of_lookup_2, all_letters_head. Qed.

Lemma letter_index_sanitize (c : pychar) :
  all_letters !! letter_index c = Some (sanitize c).
Proof.
  unfold sanitize. destruct (decide (c ∈ all_letters)) as [Hc|Hc].
  - by apply letter_index_in.
  - rewrite letter_index_notin by done. apply all_letters_head.
Qed.

Lemma py_getitem_nat {A} (s : list A) (i : nat) (x : A) :
  s !! i = Some x → py_getitem s (Z.of_nat i) = Ok x.
Proof.
  intros Hi. pose proof (lookup_lt_Some _ _ _ Hi) as Hlt.
  unfold py_getitem. cbn zeta.
  destruct (Z.ltb_spec (Z.of_nat i) 0); [lia|].
  destruct (Z.leb_spec 0 (Z.of_nat i)); [|lia].
  destruct (Z.ltb_spec (Z.of_nat i) (Z.of_nat (length s))); [|lia].
  cbn. by rewrite Nat2Z.id, Hi.
Qed.

Lemma py_getitem_nat_ge {A} (s : list A) (i : nat) :
  length s ≤ i → py_getitem s (Z.of_nat i) = Raise IndexError.
Proof.
  intros Hge. unfold py_getitem. cbn zeta.
  destruct (Z.ltb_spec (Z.of_nat i) 0); [lia|].
  destruct (Z.ltb_spec (Z.of_nat i) (Z.of_nat (length s))); [lia|].
  by rewrite andb_false_r.
Qed.

(** ** Rows of a tensor *)

Lemma chunks_concat (n : nat) (rows : list (list Z)) (tl : list Z) :
  Forall (λ r, length r = n) rows →
  chunks n (length rows) (concat rows ++ tl) = rows.
Proof.
  induction 1 as [|r rows Hr _ IH]; [done|].
  cbn [length chunks concat]. rewrite <- app_assoc.
  rewrite take_app_length' by done. rewrite drop_app_length' by done.
  by rewrite IH.
Qed.

Lemma length_concat_rows (n : nat) (rows : list (list Z)) :
  Forall (λ r, length r = n) rows → length (concat rows) = length rows * n.
Proof.
  induction 1 as [|r rows Hr _ IH]; [done|].
  cbn [concat length]. rewrite length_app. lia.
Qed.

Lemma block_of_concat (n i : nat) (rows : list (list Z)) (r : list Z) :
  Forall (λ r, length r = n) rows → rows !! i = Some r →
  take n (drop (i * n) (concat rows)) = r.
Proof.
  intros Hall. revert i. induction Hall as [|r0 rows Hr0 _ IH]; intros i Hi; [done|].
  destruct i as [|i]; cbn [concat].
  - injection Hi as ->. rewrite Nat.mul_0_l, drop_0. by rewrite take_app_length'.
  - cbn in Hi. replace (S i * n) with (length r0 + i * n) by lia.
    rewrite drop_app_add. by apply IH.
Qed.

Lemma take1_drop (vs : list Z) (i : nat) (v : Z) :
  vs !! i = Some v → take 1 (drop i vs) = [v].
Proof. intros Hi. by rewrite (drop_S _ _ _ Hi). Qed.

Lemma items_of_index_tensor (rest : list nat) (vs : list Z) :
  numel rest = 1 →
  tensor_iter (mkTensor (length vs :: rest) vs)
  = Ok ((λ v, mkTensor rest [v]) <$> vs).
Proof.
  intros Hrest. unfold tensor_iter. cbn [shape entries]. f_equal.
  rewrite Hrest. apply list_eq. intros i. rewrite !list_lookup_fmap.
  destruct (vs !! i) as [v|] eqn:Hv; cbn.
  - rewrite lookup_seq_lt by by eapply lookup_lt_Some.
    cbn. rewrite Nat.mul_1_r. by rewrite (take1_drop _ _ _ Hv).
  - rewrite lookup_seq_ge; [done|]. by apply lookup_ge_None.
Qed.

(** Joining the letters of a sequence of single indices looks each index
    up in the alphabet. *)
Lemma join_letters_indices (rest : list nat) (vs : list Z) :
  numel rest = 1 →
  join_letters (mkTensor (length vs :: rest) vs)
  = mapM (py_getitem all_letters) vs.
Proof.
  intros Hrest. unfold join_letters. rewrite items_of_index_tensor by done.
  cbn [rbind Ok]. rewrite mapM_fmap. apply mapM_ext, Forall_forall. by intros v _.
Qed.

Lemma argmax_last_rows (pre : list nat) (n : nat) (rows : list (list Z)) :
  n ≠ 0 → numel pre = length rows → Forall (λ r, length r = n) rows →
  argmax_last (mkTensor (pre ++ [n]) (concat rows))
  = Ok (mkTensor pre ((λ r, Z.of_nat (argmax_row r)) <$> rows)).
Proof.
  intros Hn Hpre Hrows. unfold argmax_last. cbn [shape entries].
  rewrite last_snoc, removelast_last. destruct (decide (n = 0)); [done|].
  rewrite Hpre. rewrite <- (app_nil_r (concat rows)).
  by rewrite chunks_concat.
Qed.

(** Decoding a tensor made of rows of scores: each row gives the alphabet
    character at the index of its first greatest entry. *)
Lemma tensor_to_name_rows (rest : list nat) (n : nat) (rows : list (list Z)) :
  n ≠ 0 → numel rest = 1 → Forall (λ r, length r = n) rows →
  tensor_to_name (mkTensor (length rows :: rest ++ [n]) (concat rows))
  = mapM (λ r, py_getitem all_letters (Z.of_nat (argmax_row r))) rows.
Proof.
  intros Hn Hrest Hrows. unfold tensor_to_name.
  change (length rows :: rest ++ [n]) with ((length rows :: rest) ++ [n]).
  rewrite (argmax_last_rows (length rows :: rest) n rows); try done.
  - cbn [rbind Ok].
    rewrite <- (length_fmap (λ r, Z.of_nat (argmax_row r)) rows) at 1.
    rewrite join_letters_indices by done. by rewrite mapM_fmap.
  - cbn [numel foldr]. fold (numel rest). rewrite Hrest. lia.
Qed.

(** ** One-hot rows *)

Lemma argmax_from_zeros (bi : nat) (bv : Z) (i m : nat) :
  (0 ≤ bv)%Z → argmax_from bi bv i (replicate m 0%Z) = bi.
Proof.
  intros Hbv. revert i. induction m as [|m IH]; intros i; [done|].
  cbn [replicate argmax_from]. destruct (Z.ltb_spec bv 0); [lia|]. apply IH.
Qed.

Lemma argmax_from_one (bi i k m : nat) :
  k < m → argmax_from bi 0 i (<[k := 1%Z]> (replicate m 0%Z)) = i + k.
Proof.
  revert bi i m. induction k as [|k IH]; intros bi i [|m] Hk; try lia.
  - cbn. rewrite argmax_from_zeros by lia. lia.
  - cbn [replicate]. cbn [insert list_insert argmax_from].
    cbn [Z.ltb Z.compare]. fold (@insert _ _ _ (@list_insert Z)).
    rewrite IH by lia. lia.
Qed.

Lemma argmax_row_one (k m : nat) :
  k < m → argmax_row (<[k := 1%Z]> (replicate m 0%Z)) = k.
Proof.
  intros Hk. destruct m as [|m]; [lia|]. destruct k as [|k].
  - cbn. by rewrite argmax_from_zeros by lia.
  - cbn [replicate]. cbn [insert list_insert argmax_row].
    fold (@insert _ _ _ (@list_insert Z)). rewrite argmax_from_one by lia. lia.
Qed.

Lemma argmax_row_zeros (m : nat) : argmax_row (replicate m 0%Z) = 0.
Proof. destruct m as [|m]; [done|]. cbn. by apply argmax_from_zeros. Qed.

Lemma length_one_hot (k : nat) : length (one_hot k) = n_letters.
Proof. unfold one_hot. by rewrite length_insert, length_replicate. Qed.

Lemma argmax_row_one_hot (c : pychar) :
  argmax_row (one_hot (letter_index c)) = letter_index c.
Proof. apply argmax_row_one, letter_index_lt. Qed.

(** ** Encoding *)

Lemma insert_block (pre : list Z) (n m k : nat) (v : Z) :
  k < n →
  <[length pre + k := v]> (pre ++ replicate (n + m) 0%Z)
  = pre ++ <[k := v]> (replicate n 0%Z) ++ replicate m 0%Z.
Proof.
  intros Hk. rewrite insert_app_r. f_equal. rewrite replicate_add.
  rewrite insert_app_l; [done|]. by rewrite length_replicate.
Qed.

Lemma name_to_tensor_loop (L : nat) (rest : pystr) (k : nat) (pre : list Z) :
  length pre = k * n_letters → k + length rest ≤ L →
  foldM (λ t '(li, letter), setitem3 t li 0 (letter_index letter) 1%Z)
        (mkTensor [L; 1; n_letters] (pre ++ replicate ((L - k) * n_letters) 0%Z))
        (enumerate_from k rest)
  = Ok (mkTensor [L; 1; n_letters]
          (pre ++ concat ((λ c, one_hot (letter_index c)) <$> rest)
               ++ replicate ((L - k - length rest) * n_letters) 0%Z)).
Proof.
  revert k pre. induction rest as [|c rest IH]; intros k pre Hpre Hlen.
  - cbn [enumerate_from length seq zip zip_with foldM fmap list_fmap concat app].
    by rewrite Nat.sub_0_r.
  - rewrite enumerate_from_cons. cbn [foldM length] in *.
    unfold setitem3 at 1. cbn [shape entries].
    pose proof (letter_index_lt c) as Hc.
    rewrite decide_True by lia. cbn [rbind Ok].
    rewrite Nat.mul_1_r, Nat.add_0_r, <- Hpre.
    replace (L - k) with (1 + (L - S k)) by lia.
    rewrite Nat.mul_add_distr_r, Nat.mul_1_l.
    rewrite insert_block by done. fold (one_hot (letter_index c)).
    rewrite app_assoc. rewrite IH.
    + cbn [fmap list_fmap concat]. rewrite <- !app_assoc.
      repeat f_equal; lia.
    + rewrite length_app, length_one_hot. lia.
    + lia.
Qed.

(** [name_to_tensor] never raises: it returns the one-hot rows of the
    letters, one row per character. *)
Lemma name_to_tensor_spec (name : pystr) :
  name_to_tensor name
  = Ok (mkTensor [length name; 1; n_letters]
          (encoded name)).
Proof.
  unfold name_to_tensor, enumerate, zeros, encoded.
  replace (numel [length name; 1; n_letters])
    with ((length name - 0) * n_letters) by (cbn [numel foldr]; lia).
  pose proof (name_to_tensor_loop (length name) name 0 []) as Hloop.
  cbn [app] in Hloop. rewrite Hloop by (cbn [length]; lia).
  rewrite Nat.sub_0_r, Nat.sub_diag. cbn [Nat.mul replicate].
  by rewrite app_nil_r.
Qed.

Lemma one_hot_rows_length (name : pystr) :
  Forall (λ r : list Z, length r = n_letters)
         ((λ c, one_hot (letter_index c)) <$> name).
Proof. apply Forall_fmap, Forall_forall. intros c _. apply length_one_hot. Qed.

(** Decoding the one-hot rows of a text, along any axes of extent 1. *)
Lemma tensor_to_name_one_hot (rest : list nat) (name : pystr) :
  numel rest = 1 →
  tensor_to_name (mkTensor (length name :: rest ++ [n_letters]) (encoded name))
  = Ok (sanitize <$> name).
Proof.
  intros Hrest. unfold encoded.
  rewrite <- (length_fmap (λ c, one_hot (letter_index c)) name) at 1.
  rewrite tensor_to_name_rows;
    [|pose proof n_letters_pos; lia|done|apply one_hot_rows_length].
  rewrite mapM_fmap. apply mapM_ok, Forall_forall. intros c _. cbn.
  rewrite argmax_row_one_hot. apply py_getitem_nat, letter_index_sanitize.
Qed.

(** Encoding then decoding a text replaces what is outside the alphabet
    by the character at index 0. *)
Lemma decode_encode (name : pystr) :
  decode_encoded name = Ok (sanitize <$> name).
Proof.
  unfold decode_encoded. rewrite name_to_tensor_spec. cbn [rbind Ok].
  apply (tensor_to_name_one_hot [1]). done.
Qed.

(** ** The alphabet: coverage, fallback and the character at index 0 *)

(** C7. Alphabet coverage round-trip: for every character [c] of the
    alphabet, encoding the one-character string [c] and decoding the result
    gives back exactly [c]. *)
Theorem alphabet_coverage_roundtrip (c : pychar) :
  c ∈ all_letters →
  decode_encoded [c] = Ok [c].
Proof.
  intros Hc. rewrite decode_encode. cbn [fmap list_fmap].
  unfold sanitize. by rewrite decide_True.
Qed.

Lemma alphabet_coverage_roundtrip_witness :
  65%N ∈ all_letters ∧
  decode_encoded [65%N] = Ok [65%N].
Proof.
  assert (Hin : 65%N ∈ all_letters) by (apply (bool_decide_unpack _); by vm_compute).
  split; [exact Hin|]. exact (alphabet_coverage_roundtrip 65%N Hin).
Defined.

(** C8. Unknown-character fallback: a character outside the alphabet is
    encoded without any exception as the one-hot row of index 0, and
    decoding that encoding gives the alphabet's character at index 0. *)
Theorem unknown_character_fallback (c : pychar) :
  c ∉ all_letters →
  letter_index c = NULL_IDX
  ∧ name_to_tensor [c] = Ok (mkTensor [1; 1; n_letters] (one_hot NULL_IDX))
  ∧ py_getitem all_letters (Z.of_nat NULL_IDX) = Ok hyphen
  ∧ decode_encoded [c] = Ok [hyphen].
Proof.
  intros Hc. split; [by apply letter_index_notin|]. split; [|split].
  - rewrite name_to_tensor_spec. unfold encoded. cbn [length fmap list_fmap concat].
    by rewrite letter_index_notin, app_nil_r.
  - apply py_getitem_nat, all_letters_head.
  - rewrite decode_encode. cbn [fmap list_fmap].
    unfold sanitize. by rewrite decide_False.
Qed.

Lemma unknown_character_fallback_witness :
  (33%N ∉ all_letters) ∧
  decode_encoded [33%N] = Ok [hyphen].
Proof.
  assert (Hout : 33%N ∉ all_letters) by (apply (bool_decide_unpack _); by vm_compute).
  split; [exact Hout|].
  exact (proj2 (proj2 (proj2 (unknown_character_fallback 33%N Hout)))).
Defined.

Lemma letter_index_null (c : pychar) :
  letter_index c = NULL_IDX ↔ c = hyphen ∨ c ∉ all_letters.
Proof.
  split.
  - intros H0. destruct (decide (c ∈ all_letters)) as [Hc|Hc]; [left|by right].
    apply letter_index_in in Hc. rewrite H0, all_letters_head in Hc. congruence.
  - intros [->|Hc]; [|by apply letter_index_notin].
    pose proof (letter_index_in hyphen hyphen_in_all_letters) as Hi.
    pose proof all_letters_NoDup as Hnd.
    by apply (NoDup_lookup _ _ _ _ Hnd Hi all_letters_head).
Qed.

(** C4, as the claim states it, fails: the hyphen is a member of the
    alphabet, it sits at index 0, and so it is encoded exactly like a
    character the alphabet does not have. *)
Lemma hyphen_encodes_to_sentinel :
  ¬ (∀ c : pychar, c ∈ all_letters → letter_index c ≠ NULL_IDX)
  ∧ name_to_tensor (str "-") = name_to_tensor (str "!").
Proof.
  split.
  - intros Hall. apply (Hall hyphen hyphen_in_all_letters).
    apply letter_index_null. by left.
  - by vm_compute.
Qed.

(** C4, amended. Index 0 of the alphabet holds the hyphen, itself an
    admissible character of a text.  A character is encoded as index 0
    exactly when it is the hyphen or lies outside the alphabet; every other
    alphabet character is encoded as its own, nonzero, position; and a row
    of padding decodes to index 0 as well. *)
Theorem index_zero_characters :
  all_letters !! NULL_IDX = Some hyphen
  ∧ (∀ c : pychar, letter_index c = NULL_IDX ↔ c = hyphen ∨ c ∉ all_letters)
  ∧ (∀ c : pychar, letter_index c ≠ NULL_IDX ↔ c ∈ all_letters ∧ c ≠ hyphen)
  ∧ (∀ c : pychar, all_letters !! letter_index c = Some (sanitize c))
  ∧ argmax_row (replicate n_letters (Z.of_nat NULL_IDX)) = NULL_IDX.
Proof.
  split; [apply all_letters_head|]. split; [apply letter_index_null|].
  split; [|split; [apply letter_index_sanitize|apply argmax_row_zeros]].
  intros c. rewrite letter_index_null.
  destruct (decide (c = hyphen)), (decide (c ∈ all_letters)); tauto.
Qed.

(** ** Batches *)

Lemma length_encoded (text : pystr) :
  length (encoded text) = length text * n_letters.
Proof.
  unfold encoded. rewrite (length_concat_rows n_letters).
  - by rewrite length_fmap.
  - apply one_hot_rows_length.
Qed.

Lemma length_le_longest (texts : list pystr) (text : pystr) :
  text ∈ texts → length text ≤ longest texts.
Proof.
  intros Hin. unfold longest.
  apply max_list_elem_of_le, list_elem_of_fmap. by exists text.
Qed.

Lemma length_padded (T : nat) (text : pystr) :
  length text ≤ T → length (padded T text) = T * n_letters.
Proof.
  intros Hle. unfold padded.
  rewrite length_app, length_encoded, length_replicate.
  rewrite <- Nat.mul_add_distr_r. f_equal. lia.
Qed.

Lemma same_trailing_dims (ts : list tensor) (trailing : list nat) :
  Forall (λ t, tail (shape t) = trailing ∧ shape t ≠ []) ts →
  forallb (λ t, bool_decide (tail (shape t) = trailing ∧ shape t ≠ [])) ts = true.
Proof.
  induction 1 as [|t ts Ht _ IH]; [done|].
  cbn [forallb]. by rewrite IH, bool_decide_eq_true_2.
Qed.

(** Padding the encodings of texts: one block of [longest] rows per text. *)
Lemma pad_sequence_encoded (texts : list pystr) :
  texts ≠ [] →
  pad_sequence ((λ text, mkTensor [length text; 1; n_letters] (encoded text)) <$> texts)
               (Z.of_nat NULL_IDX)
  = Ok (mkTensor [length texts; longest texts; 1; n_letters]
          (concat (padded (longest texts) <$> texts))).
Proof.
  intros Hne. destruct texts as [|t0 texts]; [done|].
  set (all := t0 :: texts). unfold pad_sequence.
  change ((λ text, mkTensor [length text; 1; n_letters] (encoded text)) <$> all)
    with (mkTensor [length t0; 1; n_letters] (encoded t0)
          :: ((λ text, mkTensor [length text; 1; n_letters] (encoded text)) <$> texts))
    at 1.
  cbn [shape]. rewrite same_trailing_dims.
  - rewrite length_fmap. rewrite <- !list_fmap_compose.
    unfold longest, padded. do 2 f_equal.
  - apply Forall_fmap, Forall_forall. by intros text _.
Qed.

Lemma filter_keeps_all {A} (P : A → Prop) `{∀ x, Decision (P x)} (l : list A) :
  Forall P l → filter P l = l.
Proof.
  induction 1 as [|x l Hx _ IH]; [done|].
  by rewrite filter_cons_True, IH.
Qed.

Lemma torch_cat_singletons (ks : list nat) :
  ks ≠ [] →
  torch_cat ((λ k, tensor1 (Z.of_nat k)) <$> ks)
  = Ok (mkTensor [length ks] (Z.of_nat <$> ks)).
Proof.
  intros Hne. unfold torch_cat.
  rewrite (filter_keeps_all (λ t, shape t ≠ [0]))
    by (apply Forall_fmap, Forall_forall; by intros k _).
  destruct ks as [|k0 ks]; [done|].
  set (all := k0 :: ks).
  change ((λ k, tensor1 (Z.of_nat k)) <$> all)
    with (tensor1 (Z.of_nat k0) :: ((λ k, tensor1 (Z.of_nat k)) <$> ks)) at 1 2.
  cbn [shape tensor1]. rewrite same_trailing_dims.
  - f_equal. f_equal.
    + f_equal. clear. induction all as [|k all IH]; [done|].
      cbn [fmap list_fmap sum_list sum_list_with length] in *. by rewrite IH.
    + clear. induction all as [|k all IH]; [done|].
      cbn [fmap list_fmap concat] in *. by rewrite IH.
  - apply Forall_fmap, Forall_forall. by intros k _.
Qed.

Lemma unzip_batch_nonempty (batch : list (tensor * tensor)) :
  batch ≠ [] → unzip_batch batch = Ok (batch.*1, batch.*2).
Proof. by destruct batch. Qed.

(** The batch of a nonempty list of texts: the padded blocks, squeezed,
    and the category indices in the order of the items. *)
Lemma batch_of_texts_spec (items : list (pystr * nat)) :
  items ≠ [] →
  batch_of_texts items
  = Ok (squeeze (mkTensor [length items; longest items.*1; 1; n_letters]
                   (concat (padded (longest items.*1) <$> items.*1))),
        mkTensor [length items] (Z.of_nat <$> items.*2)).
Proof.
  intros Hne. unfold batch_of_texts.
  rewrite (mapM_ok _ (λ it, (mkTensor [length it.1; 1; n_letters] (encoded it.1),
                             tensor1 (Z.of_nat it.2)))).
  2:{ apply Forall_forall. intros [text k] _. by rewrite name_to_tensor_spec. }
  cbn [rbind Ok]. unfold collate_fn.
  rewrite unzip_batch_nonempty by (by intros ?%fmap_nil_inv).
  cbn [rbind Ok]. rewrite <- !list_fmap_compose.
  change (pad_sequence _ _) with
    (pad_sequence ((λ text, mkTensor [length text; 1; n_letters] (encoded text))
                     ∘ fst <$> items) (Z.of_nat NULL_IDX)).
  change (torch_cat _) with
    (torch_cat ((λ k, tensor1 (Z.of_nat k)) ∘ snd <$> items)).
  rewrite !list_fmap_compose.
  rewrite pad_sequence_encoded by (by intros ?%fmap_nil_inv).
  rewrite torch_cat_singletons by (by intros ?%fmap_nil_inv).
  cbn [rbind Ok]. by rewrite !length_fmap.
Qed.

Lemma n_letters_not_1 : n_letters ≠ 1.
Proof. by vm_compute. Qed.

Lemma squeeze_batch_shape (B T : nat) :
  B ≠ 1 → T ≠ 1 →
  filter (λ d, d ≠ 1) [B; T; 1; n_letters] = [B; T; n_letters].
Proof.
  intros HB HT. pose proof n_letters_not_1.
  rewrite (filter_cons_True _ B) by done.
  rewrite (filter_cons_True _ T) by done.
  rewrite (filter_cons_False _ 1) by (intros Hne; by apply Hne).
  by rewrite (filter_cons_True _ n_letters) by done.
Qed.

(** In a batch whose two leading axes survive the squeeze, the first
    [length text] positions of the block of a text decode to the text,
    up to the characters that the alphabet does not have. *)
Lemma decode_item_padded (texts : list pystr) (T i : nat) (text : pystr) :
  length texts ≠ 1 → T ≠ 1 →
  Forall (λ t, length t ≤ T) texts →
  texts !! i = Some text →
  decode_item (squeeze (mkTensor [length texts; T; 1; n_letters]
                          (concat (padded T <$> texts))))
              i (length text)
  = Ok (sanitize <$> text).
Proof.
  intros HB HT Hle Hi. unfold decode_item, squeeze. cbn [shape entries].
  rewrite squeeze_batch_shape by done.
  unfold select. cbn [shape entries].
  rewrite decide_True by by eapply lookup_lt_Some.
  assert (Hnum : numel [T; n_letters] = T * n_letters)
    by (cbn [numel foldr]; lia).
  rewrite Hnum.
  rewrite (block_of_concat (T * n_letters) i _ (padded T text)).
  - cbn [rbind Ok]. unfold slice_to. cbn [shape entries rbind Ok].
    assert (Hlen : length text ≤ T).
    { rewrite Forall_forall in Hle. apply Hle. by eapply list_elem_of_lookup_2. }
    rewrite Nat.min_l by done.
    replace (numel [n_letters]) with n_letters by (cbn [numel foldr]; lia).
    unfold padded. rewrite take_app_length' by (symmetry; apply length_encoded).
    by apply (tensor_to_name_one_hot [] text).
  - apply Forall_fmap. eapply Forall_impl; [exact Hle|].
    intros t Ht. by apply length_padded.
  - by rewrite list_lookup_fmap, Hi.
Qed.

Lemma texts_le_longest (texts : list pystr) :
  Forall (λ t, length t ≤ longest texts) texts.
Proof. apply Forall_forall. intros t. apply length_le_longest. Qed.

Lemma sanitize_alphabet (text : pystr) :
  Forall (λ c, c ∈ all_letters) text → sanitize <$> text = text.
Proof.
  induction 1 as [|c text Hc _ IH]; [done|].
  cbn [fmap list_fmap] in *. rewrite IH. unfold sanitize. by rewrite decide_True.
Qed.

(** C1 fails on the code.  [collate_fn] squeezes every axis of extent 1,
    not only the one-hot tensor's middle axis: the batch of a single text
    loses its batch axis, and with a one-character text it is left with
    the alphabet axis alone, which can neither be decoded nor be cut to
    the text's length. *)
Theorem collate_fn_single_item_collapses :
  (∀ (text : pystr) (k : nat),
     ∃ names cats,
       batch_of_texts [(text, k)] = Ok (names, cats)
       ∧ shape names = filter (λ d, d ≠ 1) [length text; n_letters])
  ∧ ∃ names cats,
      batch_of_texts [(str "A", 0)] = Ok (names, cats)
      ∧ shape names = [n_letters]
      ∧ tensor_to_name names = Raise TypeError
      ∧ decode_item names 0 1 = Raise IndexError.
Proof.
  split.
  - intros text k. eexists _, _. split; [by apply batch_of_texts_spec|].
    unfold squeeze. cbn [shape length fmap list_fmap fst].
    rewrite (filter_cons_False _ 1) by (intros Hne; by apply Hne).
    destruct (decide (longest [text] = 1)) as [H1|H1].
    + assert (length text = 1) as -> by (unfold longest in H1; cbn in H1; lia).
      rewrite H1. by rewrite !(filter_cons_False _ 1) by (intros Hne; by apply Hne).
    + assert (longest [text] = length text) as -> by (unfold longest; cbn; lia).
      assert (length text ≠ 1) by (unfold longest in H1; cbn in H1; lia).
      rewrite !(filter_cons_True _ (length text)) by done.
      by rewrite (filter_cons_False _ 1) by (intros Hne; by apply Hne).
  - eexists _, _. split; [by apply batch_of_texts_spec|]. by vm_compute.
Qed.

(** C5, as the claim states it, fails: a text may hold a character that
    the alphabet does not have (here the Polish l with stroke, which has no
    decomposition), and the position of that character decodes to the
    hyphen. *)
Lemma batch_roundtrip_loses_unknown_characters :
  ¬ (∀ (items : list (pystr * nat)) (b : tensor * tensor) (i : nat) (text : pystr),
       batch_of_texts items = Ok b →
       items.*1 !! i = Some text →
       decode_item b.1 i (length text) = Ok text).
Proof.
  intros Hall.
  pose proof (batch_of_texts_spec [(str "Abl", 0); ([90; 322]%N, 1)] ltac:(done)) as Hb.
  specialize (Hall _ _ 1 [90; 322]%N Hb eq_refl).
  vm_compute in Hall. discriminate Hall.
Qed.

(** C5, amended. For every batch of at least two texts whose longest text
    does not have length 1, and for every item of it, decoding the first
    [length text] positions of the item's padded sequence gives the text
    with each character outside the alphabet replaced by the hyphen, hence
    exactly the text when all its characters are in the alphabet; and the
    batch built from Abl and Zz has padded length 3, a row of padding
    (decoding to index 0) at the third position of its second sequence, and
    the first two positions of that sequence decode to Zz. *)
Theorem batch_roundtrip :
  (∀ (items : list (pystr * nat)) (b : tensor * tensor) (i : nat) (text : pystr),
     batch_of_texts items = Ok b →
     length items ≠ 1 → longest items.*1 ≠ 1 →
     items.*1 !! i = Some text →
     decode_item b.1 i (length text) = Ok (sanitize <$> text)
     ∧ (Forall (λ c, c ∈ all_letters) text →
        decode_item b.1 i (length text) = Ok text))
  ∧ ∃ names cats,
      batch_of_texts [(str "Abl", 0); (str "Zz", 1)] = Ok (names, cats)
      ∧ shape names = [2; 3; n_letters]
      ∧ (let* seq1 := select names 1 in select seq1 2)
        = Ok (mkTensor [n_letters] (replicate n_letters (Z.of_nat NULL_IDX)))
      ∧ (let* seq1 := select names 1 in
         let* pos2 := select seq1 2 in
         argmax_last pos2) = Ok (mkTensor [] [Z.of_nat NULL_IDX])
      ∧ decode_item names 1 2 = Ok (str "Zz")
      ∧ cats = mkTensor [2] [0%Z; 1%Z].
Proof.
  split.
  - intros items b i text Hb HB HT Hi.
    assert (Hne : items ≠ []).
    { intros ->. by destruct i. }
    rewrite batch_of_texts_spec in Hb by done. injection Hb as <-.
    cbn [fst].
    assert (Hdec : decode_item
              (squeeze (mkTensor [length items; longest items.*1; 1; n_letters]
                          (concat (padded (longest items.*1) <$> items.*1))))
              i (length text) = Ok (sanitize <$> text)).
    { rewrite <- (length_fmap fst items) at 1.
      apply decode_item_padded; try done.
      - by rewrite length_fmap.
      - apply texts_le_longest. }
    split; [exact Hdec|]. intros Hall. by rewrite Hdec, sanitize_alphabet.
  - eexists _, _. split; [by apply batch_of_texts_spec|]. by vm_compute.
Qed.

Lemma batch_roundtrip_witness :
  decode_item
    (squeeze (mkTensor [2; 3; 1; n_letters]
                (concat (padded 3 <$> [str "Abl"; str "Zz"])))) 1 2
  = Ok (str "Zz").
Proof.
  refine (proj2 (proj1 batch_roundtrip [(str "Abl", 0); (str "Zz", 1)] _ 1 (str "Zz")
                   (batch_of_texts_spec _ _) _ _ _) _).
  - done.
  - done.
  - by vm_compute.
  - reflexivity.
  - apply (bool_decide_unpack _). by vm_compute.
Defined.

(** ** Loading *)

Section LoaderProperties.
Context `{U : Unicodedata}.

Lemma unicode_to_ascii_nil : unicode_to_ascii [] = [].
Proof. unfold unicode_to_ascii. by rewrite normalize_NFD_nil. Qed.

Lemma foldl_append {A B} (g : A → B) (d : list B) (l : list A) :
  foldl (λ d x, d ++ [g x]) d l = d ++ (g <$> l).
Proof.
  revert d. induction l as [|x l IH]; intros d; cbn [foldl fmap list_fmap].
  - by rewrite app_nil_r.
  - rewrite IH. by rewrite <- app_assoc.
Qed.

Lemma load_file_spec (fs : filesystem) (st : NameDataset) (idx : nat)
    (filename : pystr) :
  load_file fs st (idx, filename)
  = let* content := read_text fs filename in
    Ok (mkNameDataset (<[category_of filename := idx]> (cat2idx st))
                      (<[idx := category_of filename]> (idx2cat st))
                      (data st ++ items_of_file filename content)).
Proof.
  unfold load_file. destruct (read_text fs filename) as [e|content]; [done|].
  cbn [rbind Ok]. by rewrite foldl_append.
Qed.

(** The loop of [load_data] over the matched files, in closed form. *)
Lemma load_loop_spec (fs : filesystem) (files : list pystr) (ds : NameDataset) :
  foldM (load_file fs) (mkNameDataset ∅ ∅ []) (enumerate files) = Ok ds →
  ∃ contents,
    Forall2 (λ f c, read_text fs f = Ok c) files contents
    ∧ cat2idx ds = dict_of_enumerate (category_of <$> files)
    ∧ idx2cat ds = dict_of_indices (category_of <$> files)
    ∧ data ds = concat (zip_with items_of_file files contents).
Proof.
  revert ds. induction files as [|f files IH] using rev_ind; intros ds Hds.
  - injection Hds as <-. by exists [].
  - unfold enumerate in Hds. rewrite enumerate_from_snoc, foldM_app in Hds.
    apply rbind_ok in Hds as (st & Hst & Hf).
    apply IH in Hst as (contents & Hread & Hc2i & Hi2c & Hdata).
    cbn [foldM] in Hf. rewrite load_file_spec in Hf.
    apply rbind_ok in Hf as (st' & Hf & Hst').
    apply rbind_ok in Hf as (content & Hcontent & Hmk).
    injection Hst' as <-. injection Hmk as <-. cbn [cat2idx idx2cat data].
    exists (contents ++ [content]). split; [|split; [|split]].
    + apply Forall2_app; [done|]. by constructor.
    + rewrite fmap_app. cbn [fmap list_fmap].
      rewrite dict_of_enumerate_snoc, length_fmap. by rewrite Hc2i.
    + rewrite fmap_app. cbn [fmap list_fmap].
      rewrite dict_of_indices_snoc, length_fmap. by rewrite Hi2c.
    + rewrite zip_with_app by by eapply Forall2_length.
      rewrite concat_app, Hdata. cbn [zip_with concat]. by rewrite app_nil_r.
Qed.

Lemma foldM_invariant {A S} (P : S → Prop) (f : S → A → result S)
    (l : list A) (s s' : S) :
  P s → (∀ s x s', P s → f s x = Ok s' → P s') →
  foldM f s l = Ok s' → P s'.
Proof.
  intros Hs Hstep. revert s Hs. induction l as [|x l IH]; intros s Hs Hfold.
  - by injection Hfold as <-.
  - cbn [foldM] in Hfold. apply rbind_ok in Hfold as (s1 & Hx & Hl).
    eapply IH; [|exact Hl]. by eapply Hstep.
Qed.

(** Every item of a loaded corpus carries a category that [cat2idx]
    knows. *)
Lemma load_data_categories (fs : filesystem) (path : pystr) (ds : NameDataset) :
  load_data fs path = Ok ds →
  Forall (λ item, is_Some (cat2idx ds !! item.2)) (data ds).
Proof.
  unfold load_data.
  apply (foldM_invariant
           (λ st, Forall (λ item, is_Some (cat2idx st !! item.2)) (data st))).
  - constructor.
  - intros st [idx f] st' Hst Hf. rewrite load_file_spec in Hf.
    apply rbind_ok in Hf as (content & _ & Hmk). injection Hmk as <-.
    cbn [cat2idx data]. apply Forall_app. split.
    + eapply Forall_impl; [exact Hst|]. intros item Hitem. cbn in Hitem.
      destruct (decide (category_of f = item.2)) as [<-|Hne].
      * rewrite lookup_insert_eq. by eexists.
      * by rewrite lookup_insert_ne.
    + apply Forall_fmap, Forall_forall. intros line _. cbn.
      rewrite lookup_insert_eq. by eexists.
Qed.
End LoaderProperties.

Lemma py_getitem_elem_of {A} (s : list A) (i : Z) (x : A) :
  py_getitem s i = Ok x → x ∈ s.
Proof.
  unfold py_getitem. cbn zeta.
  destruct (_ && _); [|discriminate].
  destruct (s !! _) as [y|] eqn:Hy; [|discriminate].
  intros [= <-]. by eapply list_elem_of_lookup_2.
Qed.

(** [__getitem__] on a position that holds an item of a known category
    returns the encoding of its text and its category index. *)
Lemma getitem_item (ds : NameDataset) (idx : Z) (name c : pystr) :
  py_getitem (data ds) idx = Ok (name, c) →
  Forall (λ item, is_Some (cat2idx ds !! item.2)) (data ds) →
  ∃ k, cat2idx ds !! c = Some k
       ∧ NameDataset_getitem ds idx
         = Ok (mkTensor [length name; 1; n_letters] (encoded name),
               tensor1 (Z.of_nat k)).
Proof.
  intros Hget Hall. pose proof (py_getitem_elem_of _ _ _ Hget) as Hin.
  rewrite Forall_forall in Hall. destruct (Hall _ Hin) as [k Hk]. cbn in Hk.
  exists k. split; [done|]. unfold NameDataset_getitem.
  rewrite Hget. cbn [rbind Ok]. rewrite name_to_tensor_spec. cbn [rbind Ok].
  unfold dict_getitem. by rewrite Hk.
Qed.

Lemma blank_lines_text_lines :
  file_lines blank_lines_text
  = [str "Smith "; []; str "Jones"; [769%N]; str "Brown"].
Proof. by vm_compute. Qed.

Lemma length_split_nl (s : pystr) :
  length (split_nl s) = S (count_newlines s).
Proof.
  unfold count_newlines. induction s as [|c s IH]; [done|].
  cbn [split_nl]. destruct (decide (c = newline)) as [->|Hne].
  - rewrite filter_cons_True by done. cbn [length]. by rewrite IH.
  - rewrite filter_cons_False by done.
    destruct (split_nl s) as [|l ls]; [discriminate IH|]. exact IH.
Qed.

(** C2, as the claim states it, fails: [load_data] has no check on the
    list of matched files, and a pattern that matches nothing ends the loop
    at once without any exception. *)
Lemma no_match_is_not_an_error :
  ¬ (∀ (U : Unicodedata) (fs : filesystem) (path : pystr),
       glob fs path = [] → load_data fs path = Raise IOError).
Proof.
  intros Hall.
  specialize (Hall latin_unicodedata fs_no_match (str "data/names/none.txt") eq_refl).
  discriminate Hall.
Qed.

(** C2, amended. For every path pattern that matches zero files, the
    construction of the dataset returns normally with an empty corpus:
    both category dicts are empty and the item count is 0. *)
Theorem load_data_no_match `{U : Unicodedata} (fs : filesystem) (path : pystr) :
  glob fs path = [] →
  ∃ ds, NameDataset_init fs path = Ok ds
        ∧ cat2idx ds = ∅ ∧ idx2cat ds = ∅ ∧ data ds = []
        ∧ NameDataset_len ds = 0.
Proof.
  intros Hglob. exists (mkNameDataset ∅ ∅ []).
  unfold NameDataset_init, load_data. by rewrite Hglob.
Qed.

Lemma load_data_no_match_witness :
  glob fs_no_match (str "data/names/none.txt") = []
  ∧ ∃ ds, @NameDataset_init latin_unicodedata fs_no_match (str "data/names/none.txt") = Ok ds
          ∧ cat2idx ds = ∅ ∧ idx2cat ds = ∅ ∧ data ds = []
          ∧ NameDataset_len ds = 0.
Proof.
  split; [reflexivity|].
  exact (@load_data_no_match latin_unicodedata fs_no_match
           (str "data/names/none.txt") eq_refl).
Defined.

(** C3, as the claim states it, fails: only the file's text as a whole is
    stripped, and no line is skipped.  A line keeps the blank it ends in,
    and a blank line inside a file is loaded as an item with empty text. *)
Lemma blank_and_unstripped_lines_are_loaded :
  ¬ (∀ (U : Unicodedata) (fs : filesystem) (path : pystr) (ds : NameDataset),
       load_data fs path = Ok ds → Forall (λ item, item.1 ≠ []) (data ds))
  ∧ ∃ ds c, @load_data latin_unicodedata fs_blank_lines [] = Ok ds
            ∧ data ds !! 0 = Some (str "Smith ", c)
            ∧ data ds !! 1 = Some ([], c).
Proof.
  destruct (@load_data latin_unicodedata fs_blank_lines []) as [e|ds] eqn:Hload;
    [by vm_compute in Hload|].
  assert (Hdata : data ds !! 0 = Some (str "Smith ", str "English")
                  ∧ data ds !! 1 = Some ([], str "English")).
  { vm_compute in Hload. injection Hload as <-. by vm_compute. }
  split.
  - intros Hall. specialize (Hall latin_unicodedata fs_blank_lines [] ds Hload).
    rewrite Forall_forall in Hall.
    apply (Hall ([], str "English")); [|done].
    eapply list_elem_of_lookup_2. apply Hdata.
  - by exists ds, (str "English").
Qed.

Lemma length_concat_items `{U : Unicodedata} (files contents : list pystr) :
  length files = length contents →
  length (concat (zip_with items_of_file files contents))
  = sum_list ((λ c, S (count_newlines (strip c))) <$> contents).
Proof.
  revert contents. induction files as [|f files IH]; intros [|c contents] Hlen;
    try done.
  cbn [zip_with concat fmap list_fmap sum_list sum_list_with].
  rewrite length_app, IH by (cbn in Hlen; lia).
  unfold items_of_file, file_lines. by rewrite length_fmap, length_split_nl.
Qed.

(** C3, amended. For every source file processed by [load_data], the
    file's text is stripped once as a whole and cut at the newlines, and
    every resulting line, an empty one included, becomes one item of the
    file's category, its text being the line without its nonspacing marks.
    A file so contributes one item more than its stripped text has
    newlines. *)
Theorem load_data_lines `{U : Unicodedata} (fs : filesystem) (path : pystr)
    (ds : NameDataset) :
  load_data fs path = Ok ds →
  ∃ contents,
    Forall2 (λ f c, read_text fs f = Ok c) (glob fs path) contents
    ∧ data ds
      = concat (zip_with
                  (λ f c, (λ line, (unicode_to_ascii line, category_of f))
                             <$> split_nl (strip c))
                  (glob fs path) contents)
    ∧ NameDataset_len ds
      = sum_list ((λ c, S (count_newlines (strip c))) <$> contents).
Proof.
  intros Hload. apply load_loop_spec in Hload as (contents & Hread & _ & _ & Hdata).
  exists contents. split; [done|]. split; [done|].
  unfold NameDataset_len. rewrite Hdata.
  apply length_concat_items. by eapply Forall2_length.
Qed.

Lemma load_data_lines_witness :
  ∃ ds, @load_data latin_unicodedata fs_blank_lines [] = Ok ds
        ∧ NameDataset_len ds = 5.
Proof.
  destruct (@load_data latin_unicodedata fs_blank_lines []) as [e|ds] eqn:Hload;
    [by vm_compute in Hload|].
  exists ds. split; [reflexivity|].
  destruct (@load_data_lines latin_unicodedata fs_blank_lines [] ds Hload)
    as (contents & Hread & _ & Hlen).
  rewrite Hlen. cbn [glob fs_blank_lines] in Hread.
  apply Forall2_cons_inv_l in Hread as (c & cs & Hc & Hcs & ->).
  apply Forall2_nil_inv_l in Hcs as ->. cbn [read_text] in Hc.
  injection Hc as <-. by vm_compute.
Defined.

(** The loader expects a pattern that matches one file per category.  The
    condition matters: when two matched files have the same base name (in
    two directories) they get two indices, [idx2cat] keeps both and
    [cat2idx] only the later one, and the two dicts are not inverses. *)
Lemma same_category_twice_breaks_inverse :
  ¬ (∀ (U : Unicodedata) (fs : filesystem) (path : pystr) (ds : NameDataset),
       load_data fs path = Ok ds →
       ∀ c i, cat2idx ds !! c = Some i ↔ idx2cat ds !! i = Some c).
Proof.
  intros Hall.
  destruct (@load_data latin_unicodedata fs_same_stem []) as [e|ds] eqn:Hload;
    [by vm_compute in Hload|].
  specialize (Hall latin_unicodedata fs_same_stem [] ds Hload (str "English") 0).
  vm_compute in Hload. injection Hload as <-.
  vm_compute in Hall. destruct Hall as [_ Hall].
  specialize (Hall eq_refl). discriminate Hall.
Qed.

(** C6. After loading any corpus from a pattern matching one file per
    category (the matched files have pairwise distinct categories), [cat2idx] and
    [idx2cat] are inverses of each other; the indices are given in the
    order of the matched files, from 0: [idx2cat] maps each index to the
    category of the file at that position, so an index is never given to
    another category.  Loading English.txt (Smith, Jones) then Italian.txt
    (Rossi) gives [cat2idx] equal to English: 0, Italian: 1, three items,
    and Rossi is decoded from its encoding. *)
Theorem category_index_maps :
  (∀ (U : Unicodedata) (fs : filesystem) (path : pystr) (ds : NameDataset),
     load_data fs path = Ok ds →
     (∀ i, idx2cat ds !! i = (category_of <$> glob fs path) !! i)
     ∧ (NoDup (category_of <$> glob fs path) →
        ∀ c i, cat2idx ds !! c = Some i ↔ idx2cat ds !! i = Some c))
  ∧ (∀ (U : Unicodedata) (path : pystr),
       ∃ ds, load_data fs_two_categories path = Ok ds
             ∧ cat2idx ds = {[ str "English" := 0; str "Italian" := 1 ]}
             ∧ NameDataset_len ds = 3)
  ∧ decode_encoded (str "Rossi") = Ok (str "Rossi").
Proof.
  split; [|split].
  - intros U fs path ds Hload.
    apply load_loop_spec in Hload as (contents & _ & Hc2i & Hi2c & _).
    split.
    + intros i. rewrite Hi2c. apply dict_of_indices_lookup.
    + intros Hnd c i. rewrite Hc2i, Hi2c, dict_of_indices_lookup.
      by apply dict_of_enumerate_lookup.
  - intros U path. eexists. split; [reflexivity|]. split; by vm_compute.
  - by vm_compute.
Qed.

Lemma category_index_maps_witness :
  NoDup (category_of <$> glob fs_two_categories [])
  ∧ ∃ ds, @load_data latin_unicodedata fs_two_categories [] = Ok ds
          ∧ cat2idx ds !! str "Italian" = Some 1
          ∧ idx2cat ds !! 1 = Some (str "Italian").
Proof.
  assert (Hnd : NoDup (category_of <$> glob fs_two_categories []))
    by (apply (bool_decide_unpack _); by vm_compute).
  split; [exact Hnd|].
  destruct (@load_data latin_unicodedata fs_two_categories []) as [e|ds] eqn:Hload;
    [by vm_compute in Hload|].
  exists ds. split; [reflexivity|].
  destruct (proj1 category_index_maps latin_unicodedata fs_two_categories [] ds Hload)
    as [Hidx Hinv].
  assert (Hi : idx2cat ds !! 1 = Some (str "Italian")) by (by rewrite Hidx).
  split; [|exact Hi]. by apply (Hinv Hnd).
Defined.

(** C10. The loader can produce an item whose text is the empty string,
    from a blank line inside a file and from a line made of combining
    marks only; the encoding of the empty string is the tensor with no row
    (sequence axis of extent 0), and [__getitem__] returns it with the
    item's category index, without raising. *)
Theorem empty_text_items_are_served :
  (∀ (U : Unicodedata) (path : pystr),
     ∃ ds c, load_data fs_blank_lines path = Ok ds
             ∧ data ds !! 1 = Some ([], c))
  ∧ (∃ ds c, @load_data latin_unicodedata fs_blank_lines [] = Ok ds
             ∧ data ds !! 3 = Some ([], c))
  ∧ name_to_tensor [] = Ok (mkTensor [0; 1; n_letters] [])
  ∧ (∀ (U : Unicodedata) (fs : filesystem) (path : pystr) (ds : NameDataset)
       (idx : Z) (c : pystr),
       NameDataset_init fs path = Ok ds →
       py_getitem (data ds) idx = Ok ([], c) →
       ∃ k, cat2idx ds !! c = Some k
            ∧ NameDataset_getitem ds idx
              = Ok (mkTensor [0; 1; n_letters] [], tensor1 (Z.of_nat k))).
Proof.
  split; [|split; [|split]].
  - intros U path.
    destruct (load_data fs_blank_lines path) as [e|ds] eqn:Hload;
      [by vm_compute in Hload|].
    exists ds, (category_of english_txt). split; [done|].
    apply load_loop_spec in Hload as (contents & Hread & _ & _ & ->).
    change (glob fs_blank_lines path) with [english_txt] in *.
    apply Forall2_cons_inv_l in Hread as (c & cs & Hc & Hcs & ->).
    apply Forall2_nil_inv_l in Hcs as ->.
    change (read_text fs_blank_lines english_txt) with (Ok blank_lines_text) in Hc.
    injection Hc as <-. cbn [zip_with concat]. unfold items_of_file.
    rewrite blank_lines_text_lines.
    cbn [fmap list_fmap app lookup list_lookup].
    by rewrite unicode_to_ascii_nil.
  - eexists _, _. split; [reflexivity|]. by vm_compute.
  - by rewrite name_to_tensor_spec.
  - intros U fs path ds idx c Hinit Hget.
    apply load_data_categories in Hinit.
    destruct (getitem_item ds idx [] c Hget Hinit) as (k & Hk & Hitem).
    by exists k.
Qed.

Lemma empty_text_items_are_served_witness :
  ∃ ds k, @NameDataset_init latin_unicodedata fs_blank_lines [] = Ok ds
          ∧ py_getitem (data ds) 1 = Ok ([], str "English")
          ∧ NameDataset_getitem ds 1
            = Ok (mkTensor [0; 1; n_letters] [], tensor1 (Z.of_nat k)).
Proof.
  destruct (@NameDataset_init latin_unicodedata fs_blank_lines []) as [e|ds] eqn:Hinit;
    [by vm_compute in Hinit|].
  assert (Hget : py_getitem (data ds) 1 = Ok ([], str "English")).
  { vm_compute in Hinit. injection Hinit as <-. by vm_compute. }
  destruct (proj2 (proj2 (proj2 empty_text_items_are_served))
              latin_unicodedata fs_blank_lines [] ds 1%Z (str "English")
              Hinit Hget) as (k & _ & Hitem).
  by exists ds, k.
Defined.

(** ** Decoding indices *)

Lemma argmax_last_nonneg (t ix : tensor) :
  argmax_last t = Ok ix → Forall (λ v, (0 ≤ v)%Z) (entries ix).
Proof.
  unfold argmax_last. destruct (last (shape t)) as [n|].
  - destruct (decide (n = 0)); [discriminate|]. intros [= <-]. cbn [entries].
    apply Forall_fmap, Forall_forall. intros row _. cbn. lia.
  - intros [= <-]. cbn [entries]. by repeat constructor.
Qed.

Lemma py_getitem_in_range {A} (s : list A) (v : Z) (x : A) :
  (0 ≤ v)%Z → py_getitem s v = Ok x →
  (v < Z.of_nat (length s))%Z ∧ s !! Z.to_nat v = Some x.
Proof.
  intros Hv. unfold py_getitem. cbn zeta.
  destruct (Z.ltb_spec v 0); [lia|].
  destruct (Z.leb_spec 0 v); [|lia].
  destruct (Z.ltb_spec v (Z.of_nat (length s))); [|discriminate].
  cbn [andb]. destruct (s !! Z.to_nat v) as [y|]; [|discriminate].
  by intros [= <-].
Qed.

Lemma py_getitem_out_of_range {A} (s : list A) (v : Z) :
  (0 ≤ v)%Z → ¬ (0 ≤ v < Z.of_nat (length s))%Z →
  py_getitem s v = Raise IndexError.
Proof.
  intros Hv Hout. replace v with (Z.of_nat (Z.to_nat v)) by lia.
  apply py_getitem_nat_ge. lia.
Qed.

Lemma py_getitem_nonneg_error {A} (s : list A) (v : Z) (e : pyerror) :
  py_getitem s v = Raise e → e = IndexError.
Proof.
  unfold py_getitem. cbn zeta. destruct (_ && _); [|by intros [= <-]].
  destruct (s !! _); [discriminate|]. by intros [= <-].
Qed.

(** Looking a list of indices up in a sequence: one index out of range
    makes the whole lookup raise [IndexError]. *)
Lemma mapM_getitem_out_of_range {A} (s : list A) (vs : list Z) :
  Forall (λ v, (0 ≤ v)%Z) vs →
  Exists (λ v, ¬ (0 ≤ v < Z.of_nat (length s))%Z) vs →
  mapM (py_getitem s) vs = Raise IndexError.
Proof.
  intros Hnn. induction Hnn as [|v vs Hv Hnn IH]; intros Hex.
  - by apply Exists_nil in Hex.
  - cbn [mapM]. destruct (py_getitem s v) as [e|x] eqn:Hx.
    + by rewrite (py_getitem_nonneg_error _ _ _ Hx).
    + cbn [rbind]. apply Exists_cons in Hex as [Hout|Hex].
      * by rewrite py_getitem_out_of_range in Hx.
      * by rewrite IH.
Qed.

Lemma mapM_getitem_ok {A} (s : list A) (vs : list Z) (xs : list A) :
  Forall (λ v, (0 ≤ v)%Z) vs →
  mapM (py_getitem s) vs = Ok xs →
  Forall2 (λ v x, (0 ≤ v < Z.of_nat (length s))%Z ∧ s !! Z.to_nat v = Some x) vs xs.
Proof.
  intros Hnn. revert xs. induction Hnn as [|v vs Hv Hnn IH]; intros xs Hxs.
  - injection Hxs as <-. constructor.
  - cbn [mapM] in Hxs. apply rbind_ok in Hxs as (x & Hx & Hxs).
    apply rbind_ok in Hxs as (xs' & Hxs' & Hxs). injection Hxs as <-.
    apply py_getitem_in_range in Hx as [Hlt Hx]; [|done].
    constructor; [split; [lia|done]|by apply IH].
Qed.

(** C9. Whatever tensor is decoded, if one of the indices that
    [tensor_to_name] draws from it lies outside [0, n_letters), the call
    raises [IndexError]; and a call that returns has used every index as it
    is, each within the range, never another one in its place. *)
Theorem decode_index_out_of_range (t ix : tensor) :
  argmax_last t = Ok ix →
  index_sequence ix →
  ((∃ v, v ∈ entries ix ∧ ¬ (0 ≤ v < Z.of_nat n_letters)%Z) →
   tensor_to_name t = Raise IndexError)
  ∧ (∀ s, tensor_to_name t = Ok s →
          Forall2 (λ v c, (0 ≤ v < Z.of_nat n_letters)%Z
                          ∧ all_letters !! Z.to_nat v = Some c)
                  (entries ix) s).
Proof.
  intros Hix (rest & Hshape & Hrest).
  pose proof (argmax_last_nonneg _ _ Hix) as Hnn.
  assert (Hjoin : tensor_to_name t = mapM (py_getitem all_letters) (entries ix)).
  { unfold tensor_to_name. rewrite Hix. cbn [rbind Ok].
    destruct ix as [sh vs]. cbn [shape entries] in *. subst sh.
    by apply join_letters_indices. }
  rewrite Hjoin. split.
  - intros (v & Hv & Hout). apply mapM_getitem_out_of_range; [done|].
    apply Exists_exists. by exists v.
  - intros s Hs. by apply mapM_getitem_ok.
Qed.

Lemma decode_index_out_of_range_witness :
  let t := mkTensor [1; 60] (<[59 := 1%Z]> (replicate 60 0%Z)) in
  argmax_last t = Ok (mkTensor [1] [59%Z])
  ∧ tensor_to_name t = Raise IndexError.
Proof.
  intros t.
  assert (Hix : argmax_last t = Ok (mkTensor [1] [59%Z])) by (by vm_compute).
  split; [exact Hix|].
  refine (proj1 (decode_index_out_of_range t _ Hix _) _).
  - exists []. by split.
  - exists 59%Z. split; [apply list_elem_of_here|]. vm_compute. intros [_ Hlt].
    discriminate Hlt.
Defined.

(** * Further properties of the notebook's code *)

(** ** Encoding of letters and names *)

Lemma letter_to_tensor_spec (letter : pychar) :
  letter_to_tensor letter
  = Ok (mkTensor [1; n_letters] (one_hot (letter_index letter))).
Proof.
  unfold letter_to_tensor, setitem2, zeros. cbn [shape entries].
  pose proof (letter_index_lt letter).
  rewrite decide_True by lia. unfold one_hot.
  replace (numel [1; n_letters]) with n_letters by (cbn [numel foldr]; lia).
  by rewrite Nat.mul_0_l, Nat.add_0_l.
Qed.

(** X1. [letter_to_tensor] never raises, and a name is encoded as the stack
    of the rows that [letter_to_tensor] gives for its letters, in order. *)
Theorem name_to_tensor_stacks_letters (name : pystr) :
  ∃ rows t,
    mapM letter_to_tensor name = Ok rows
    ∧ name_to_tensor name = Ok t
    ∧ length rows = length name
    ∧ Forall (λ r, shape r = [1; n_letters]) rows
    ∧ shape t = [length name; 1; n_letters]
    ∧ entries t = concat (entries <$> rows).
Proof.
  exists ((λ c, mkTensor [1; n_letters] (one_hot (letter_index c))) <$> name),
         (mkTensor [length name; 1; n_letters] (encoded name)).
  split; [|split; [|split; [|split; [|split]]]].
  - apply mapM_ok, Forall_forall. intros c _. apply letter_to_tensor_spec.
  - apply name_to_tensor_spec.
  - by rewrite length_fmap.
  - apply Forall_fmap, Forall_forall. by intros c _.
  - done.
  - cbn [entries]. unfold encoded. by rewrite <- list_fmap_compose.
Qed.

Lemma one_hot_lookup (k j : nat) :
  k < n_letters → j < n_letters →
  one_hot k !! j = Some (if decide (j = k) then 1%Z else 0%Z).
Proof.
  intros Hk Hj. unfold one_hot. destruct (decide (j = k)) as [->|Hne].
  - apply list_lookup_insert_eq. by rewrite length_replicate.
  - rewrite list_lookup_insert_ne by done. by apply lookup_replicate_2.
Qed.

Lemma encoded_lookup (name : pystr) (i j : nat) (c : pychar) :
  name !! i = Some c → j < n_letters →
  encoded name !! (i * n_letters + j)
  = Some (if decide (j = letter_index c) then 1%Z else 0%Z).
Proof.
  revert i. induction name as [|c0 name IH]; intros i Hi Hj; [done|].
  unfold encoded. cbn [fmap list_fmap concat]. fold (encoded name).
  destruct i as [|i].
  - injection Hi as ->. cbn [Nat.mul Nat.add].
    rewrite lookup_app_l by (by rewrite length_one_hot).
    apply one_hot_lookup; [apply letter_index_lt|done].
  - cbn in Hi. rewrite lookup_app_r by (rewrite length_one_hot; lia).
    rewrite length_one_hot.
    replace (S i * n_letters + j - n_letters) with (i * n_letters + j) by lia.
    by apply IH.
Qed.

(** X2. [name_to_tensor] never raises, whatever the characters of the name:
    the result has one row of [n_letters] entries per character, and the row
    of a character holds a 1 at the character's index (index 0 for a
    character outside the alphabet) and 0 everywhere else. *)
Theorem name_to_tensor_one_hot (name : pystr) :
  ∃ t, name_to_tensor name = Ok t
       ∧ shape t = [length name; 1; n_letters]
       ∧ length (entries t) = length name * n_letters
       ∧ ∀ i j c, name !! i = Some c → j < n_letters →
           entries t !! (i * n_letters + j)
           = Some (if decide (j = letter_index c) then 1%Z else 0%Z).
Proof.
  exists (mkTensor [length name; 1; n_letters] (encoded name)).
  split; [apply name_to_tensor_spec|]. split; [done|].
  split; [apply length_encoded|]. intros i j c. apply encoded_lookup.
Qed.

Lemma sanitize_fixed (c : pychar) : sanitize c = c ↔ c ∈ all_letters.
Proof.
  unfold sanitize. destruct (decide (c ∈ all_letters)) as [Hc|Hc]; [done|].
  split; [|done]. intros <-. exact hyphen_in_all_letters.
Qed.

Lemma sanitize_in_alphabet (c : pychar) : sanitize c ∈ all_letters.
Proof.
  unfold sanitize. destruct (decide (c ∈ all_letters)); [done|].
  exact hyphen_in_all_letters.
Qed.

Lemma sanitize_fixed_all (name : pystr) :
  sanitize <$> name = name ↔ Forall (λ c, c ∈ all_letters) name.
Proof.
  split; [|apply sanitize_alphabet].
  induction name as [|c name IH]; [constructor|].
  cbn [fmap list_fmap]. intros [= Hc Hname].
  constructor; [by apply sanitize_fixed|by apply IH].
Qed.

(** X3. Decoding the encoding of any name succeeds and gives the name with
    every character outside the alphabet replaced by the hyphen; it gives
    back the name itself exactly when all its characters are in the
    alphabet, and a second round trip changes nothing more. *)
Theorem decode_encoded_any_name (name : pystr) :
  decode_encoded name = Ok (sanitize <$> name)
  ∧ (decode_encoded name = Ok name ↔ Forall (λ c, c ∈ all_letters) name)
  ∧ decode_encoded (sanitize <$> name) = Ok (sanitize <$> name).
Proof.
  split; [apply decode_encode|]. split.
  - rewrite decode_encode, <- sanitize_fixed_all. split; [by intros [= ->]|by intros ->].
  - rewrite decode_encode. f_equal. apply sanitize_fixed_all.
    apply Forall_fmap, Forall_forall. intros c _. apply sanitize_in_alphabet.
Qed.

Lemma letter_index_of_sanitize (c1 c2 : pychar) :
  sanitize c1 = sanitize c2 → letter_index c1 = letter_index c2.
Proof.
  intros Heq. pose proof (letter_index_sanitize c1) as H1.
  pose proof (letter_index_sanitize c2) as H2. rewrite <- Heq in H2.
  exact (NoDup_lookup _ _ _ _ all_letters_NoDup H1 H2).
Qed.

Lemma encoded_of_sanitize (n1 n2 : pystr) :
  sanitize <$> n1 = sanitize <$> n2 → encoded n1 = encoded n2.
Proof.
  revert n2. induction n1 as [|c1 n1 IH]; intros [|c2 n2] Heq; try done.
  cbn [fmap list_fmap] in Heq. injection Heq as Hc Hn.
  unfold encoded. cbn [fmap list_fmap concat]. fold (encoded n1) (encoded n2).
  by rewrite (letter_index_of_sanitize _ _ Hc), (IH _ Hn).
Qed.

(** X4. Two names have the same encoding exactly when they agree after the
    characters outside the alphabet are replaced by the hyphen; so the
    encoding is injective on names written in the alphabet. *)
Theorem name_to_tensor_collisions (n1 n2 : pystr) :
  (name_to_tensor n1 = name_to_tensor n2 ↔ sanitize <$> n1 = sanitize <$> n2)
  ∧ (Forall (λ c, c ∈ all_letters) n1 → Forall (λ c, c ∈ all_letters) n2 →
     name_to_tensor n1 = name_to_tensor n2 → n1 = n2).
Proof.
  assert (Hiff : name_to_tensor n1 = name_to_tensor n2
                 ↔ sanitize <$> n1 = sanitize <$> n2).
  { split.
    - intros Heq. pose proof (decode_encode n1) as H1.
      pose proof (decode_encode n2) as H2. unfold decode_encoded in H1, H2.
      rewrite Heq, H2 in H1. by injection H1.
    - intros Heq. rewrite !name_to_tensor_spec.
      rewrite (encoded_of_sanitize _ _ Heq).
      apply (f_equal (length (A:=N))) in Heq. rewrite !length_fmap in Heq.
      by rewrite Heq. }
  split; [exact Hiff|]. intros H1 H2 Heq. apply Hiff in Heq.
  by rewrite !sanitize_alphabet in Heq.
Qed.

(** ** Batches and the model's input *)

Lemma select_padded (texts : list pystr) (T i : nat) (text : pystr) :
  length texts ≠ 1 → T ≠ 1 →
  Forall (λ t, length t ≤ T) texts →
  texts !! i = Some text →
  select (squeeze (mkTensor [length texts; T; 1; n_letters]
                     (concat (padded T <$> texts)))) i
  = Ok (mkTensor [T; n_letters] (padded T text)).
Proof.
  intros HB HT Hle Hi. unfold squeeze. cbn [shape entries].
  rewrite squeeze_batch_shape by done.
  unfold select. cbn [shape entries].
  rewrite decide_True by by eapply lookup_lt_Some.
  replace (numel [T; n_letters]) with (T * n_letters)
    by (cbn [numel foldr]; lia).
  rewrite (block_of_concat (T * n_letters) i _ (padded T text)); [done| |].
  - apply Forall_fmap. eapply Forall_impl; [exact Hle|].
    intros t Ht. by apply length_padded.
  - by rewrite list_lookup_fmap, Hi.
Qed.

Lemma zeros_as_rows (m n : nat) :
  replicate (m * n) 0%Z = concat (replicate m (replicate n 0%Z)).
Proof.
  induction m as [|m IH]; [done|].
  cbn [Nat.mul replicate concat]. by rewrite replicate_add, IH.
Qed.

(** Decoding rows of one-hot letters followed by rows of padding. *)
Lemma tensor_to_name_padded (T : nat) (text : pystr) :
  length text ≤ T →
  tensor_to_name (mkTensor [T; n_letters] (padded T text))
  = Ok ((sanitize <$> text) ++ replicate (T - length text) hyphen).
Proof.
  intros Hle.
  set (rows := ((λ c, one_hot (letter_index c)) <$> text)
               ++ replicate (T - length text) (replicate n_letters 0%Z)).
  assert (Hrows : padded T text = concat rows).
  { unfold padded, encoded, rows. by rewrite concat_app, zeros_as_rows. }
  assert (Hlen : length rows = T).
  { unfold rows. rewrite length_app, length_fmap, length_replicate. lia. }
  assert (Hall : Forall (λ r : list Z, length r = n_letters) rows).
  { apply Forall_app. split; [apply one_hot_rows_length|].
    apply Forall_replicate. by rewrite length_replicate. }
  rewrite Hrows. rewrite <- Hlen at 1.
  assert (Hdec := tensor_to_name_rows [] n_letters rows).
  cbn [app] in Hdec. rewrite Hdec; [|pose proof n_letters_pos; lia|done|done].
  unfold rows. clear.
  rewrite (mapM_ok _ (λ r, default hyphen (all_letters !! argmax_row r))).
  - f_equal. rewrite fmap_app, fmap_replicate, <- list_fmap_compose.
    rewrite argmax_row_zeros. f_equal.
    apply list_fmap_ext. intros _ c _. cbn.
    by rewrite argmax_row_one_hot, letter_index_sanitize.
  - apply Forall_app. split.
    + apply Forall_fmap, Forall_forall. intros c _. cbn.
      rewrite argmax_row_one_hot, letter_index_sanitize. cbn.
      apply py_getitem_nat, letter_index_sanitize.
    + apply Forall_replicate. rewrite argmax_row_zeros.
      by apply py_getitem_nat.
Qed.

(** X5. Decoding a whole padded sequence of a batch does not strip the
    padding: for a batch of at least two texts whose longest text does not
    have length 1, the sequence of an item decodes to its text (characters
    outside the alphabet as hyphens) followed by one hyphen for each
    position of padding, up to the length of the longest text. *)
Theorem decode_sequence_shows_padding (items : list (pystr * nat))
    (b : tensor * tensor) (i : nat) (text : pystr) :
  batch_of_texts items = Ok b →
  length items ≠ 1 → longest items.*1 ≠ 1 →
  items.*1 !! i = Some text →
  decode_sequence b.1 i
  = Ok ((sanitize <$> text) ++ replicate (longest items.*1 - length text) hyphen).
Proof.
  intros Hb HB HT Hi.
  assert (Hne : items ≠ []) by (intros ->; by destruct i).
  rewrite batch_of_texts_spec in Hb by done. injection Hb as <-. cbn [fst].
  unfold decode_sequence. rewrite <- (length_fmap fst items) at 1.
  rewrite (select_padded _ _ i text); try done.
  - cbn [rbind Ok]. apply tensor_to_name_padded, length_le_longest.
    by eapply list_elem_of_lookup_2.
  - by rewrite length_fmap.
  - apply texts_le_longest.
Qed.

Lemma decode_sequence_shows_padding_witness :
  ∃ b, batch_of_texts [(str "Abl", 0); (str "Zz", 1)] = Ok b
       ∧ decode_sequence b.1 1 = Ok (str "Zz-").
Proof.
  eexists. split; [by apply batch_of_texts_spec|].
  refine (decode_sequence_shows_padding [(str "Abl", 0); (str "Zz", 1)] _ 1 (str "Zz")
            (batch_of_texts_spec _ _) _ _ _).
  - done.
  - done.
  - by vm_compute.
  - reflexivity.
Defined.

(** X6. In a batch of at least two texts whose longest text does not have
    length 1, every sequence has the length of the longest text, and the
    padding comes after the content: the sequence of an item holds the
    one-hot rows of its text first, and rows of zeros only behind them. *)
Theorem batch_sequences_are_right_padded (items : list (pystr * nat))
    (b : tensor * tensor) (i : nat) (text : pystr) :
  batch_of_texts items = Ok b →
  length items ≠ 1 → longest items.*1 ≠ 1 →
  items.*1 !! i = Some text →
  length text ≤ longest items.*1
  ∧ shape b.1 = [length items; longest items.*1; n_letters]
  ∧ select b.1 i
    = Ok (mkTensor [longest items.*1; n_letters]
            (encoded text
             ++ replicate ((longest items.*1 - length text) * n_letters) 0%Z)).
Proof.
  intros Hb HB HT Hi.
  assert (Hne : items ≠ []) by (intros ->; by destruct i).
  rewrite batch_of_texts_spec in Hb by done. injection Hb as <-. cbn [fst].
  split; [|split].
  - apply length_le_longest. by eapply list_elem_of_lookup_2.
  - unfold squeeze. cbn [shape]. by apply squeeze_batch_shape.
  - rewrite <- (length_fmap fst items) at 1.
    rewrite (select_padded _ _ i text); try done.
    + by rewrite length_fmap.
    + apply texts_le_longest.
Qed.

Lemma batch_sequences_are_right_padded_witness :
  ∃ b, batch_of_texts [(str "Abl", 0); (str "Zz", 1)] = Ok b
       ∧ shape b.1 = [2; 3; n_letters].
Proof.
  eexists. split; [by apply batch_of_texts_spec|].
  refine (proj1 (proj2 (batch_sequences_are_right_padded
                          [(str "Abl", 0); (str "Zz", 1)] _ 1 (str "Zz")
                          (batch_of_texts_spec _ _) _ _ _))).
  - done.
  - done.
  - by vm_compute.
  - reflexivity.
Defined.

Lemma length_concat_padded (T : nat) (texts : list pystr) :
  Forall (λ t, length t ≤ T) texts →
  length (concat (padded T <$> texts)) = length texts * (T * n_letters).
Proof.
  intros Hle. rewrite (length_concat_rows (T * n_letters)).
  - by rewrite length_fmap.
  - apply Forall_fmap. eapply Forall_impl; [exact Hle|].
    intros t Ht. by apply length_padded.
Qed.

(** X7. [collate_fn] on the items of any nonempty list of texts returns
    normally: the category tensor lists the items' category indices in the
    order of the items, and the padded names hold one block of
    [longest * n_letters] entries per item, whatever axes the squeeze
    removes; only the empty batch raises ([ValueError], from the
    unpacking). *)
Theorem batch_of_texts_total (items : list (pystr * nat)) :
  (items = [] → batch_of_texts items = Raise ValueError)
  ∧ (items ≠ [] →
     ∃ names cats,
       batch_of_texts items = Ok (names, cats)
       ∧ cats = mkTensor [length items] (Z.of_nat <$> items.*2)
       ∧ shape names
         = filter (λ d, d ≠ 1) [length items; longest items.*1; 1; n_letters]
       ∧ length (entries names)
         = length items * (longest items.*1 * n_letters)).
Proof.
  split; [by intros ->|]. intros Hne. eexists _, _.
  split; [by apply batch_of_texts_spec|]. split; [done|]. split; [done|].
  unfold squeeze. cbn [entries].
  rewrite length_concat_padded by apply texts_le_longest.
  by rewrite length_fmap.
Qed.

Lemma take_all_encoded (name : pystr) :
  take (length name * n_letters) (encoded name) = encoded name.
Proof. apply take_ge. by rewrite length_encoded. Qed.

Lemma tensor_to_name_rank1 (n : nat) (vs : list Z) :
  n ≠ 0 → tensor_to_name (mkTensor [n] vs) = Raise TypeError.
Proof.
  intros Hn. unfold tensor_to_name, argmax_last. cbn [shape last removelast].
  by rewrite decide_False by done.
Qed.

(** X8. The input built for the model from one name,
    [name_to_tensor(name).squeeze().unsqueeze(0)], has shape
    [1, len(name), n_letters] and its first element decodes to the name
    (characters outside the alphabet as hyphens) whenever the name does not
    have exactly one character; for a one-character name the squeeze also
    removes the sequence axis, the input has shape [1, n_letters], and the
    decoding of its first element raises [TypeError]. *)
Theorem model_input_shape (name : pystr) :
  (length name ≠ 1 →
   ∃ x, model_input name = Ok x
        ∧ shape x = [1; length name; n_letters]
        ∧ shown_name name = Ok (sanitize <$> name))
  ∧ (length name = 1 →
     ∃ x, model_input name = Ok x
          ∧ shape x = [1; n_letters]
          ∧ shown_name name = Raise TypeError).
Proof.
  pose proof n_letters_not_1 as Hn1. pose proof n_letters_pos as Hpos.
  assert (Hin : model_input name
                = Ok (mkTensor (1 :: filter (λ d, d ≠ 1) [length name; 1; n_letters])
                        (encoded name))).
  { unfold model_input. by rewrite name_to_tensor_spec. }
  split; intros Hlen.
  - assert (Hsh : filter (λ d, d ≠ 1) [length name; 1; n_letters]
                  = [length name; n_letters]).
    { rewrite (filter_cons_True _ (length name)) by done.
      rewrite (filter_cons_False _ 1) by (intros Hne; by apply Hne).
      by rewrite (filter_cons_True _ n_letters) by done. }
    rewrite Hsh in Hin. eexists. split; [exact Hin|]. split; [done|].
    unfold shown_name. rewrite Hin. cbn [rbind Ok].
    unfold select. cbn [shape entries]. rewrite decide_True by lia.
    cbn [rbind Ok]. rewrite Nat.mul_0_l, drop_0.
    replace (numel [length name; n_letters]) with (length name * n_letters)
      by (cbn [numel foldr]; lia).
    rewrite take_all_encoded. by apply (tensor_to_name_one_hot [] name).
  - assert (Hsh : filter (λ d, d ≠ 1) [length name; 1; n_letters] = [n_letters]).
    { rewrite Hlen. rewrite !(filter_cons_False _ 1) by (intros Hne; by apply Hne).
      by rewrite (filter_cons_True _ n_letters) by done. }
    rewrite Hsh in Hin. eexists. split; [exact Hin|]. split; [done|].
    unfold shown_name. rewrite Hin. cbn [rbind Ok].
    unfold select. cbn [shape entries]. rewrite decide_True by lia.
    cbn [rbind Ok]. apply tensor_to_name_rank1. lia.
Qed.

Lemma model_input_shape_witness :
  ∃ x, model_input (str "Fabio") = Ok x
       ∧ shape x = [1; 5; n_letters]
       ∧ shown_name (str "Fabio") = Ok (str "Fabio").
Proof.
  destruct (proj1 (model_input_shape (str "Fabio")) ltac:(by vm_compute))
    as (x & Hx & Hshape & Hname).
  exists x. split; [exact Hx|]. split; [exact Hshape|].
  rewrite Hname. by vm_compute.
Defined.

(** ** Decoding scores *)

Lemma argmax_from_spec (l : list Z) (bi i : nat) (bv : Z) :
  (argmax_from bi bv i l = bi ∧ Forall (λ v, (v ≤ bv)%Z) l)
  ∨ (i ≤ argmax_from bi bv i l
     ∧ ∃ m, l !! (argmax_from bi bv i l - i) = Some m
            ∧ (bv < m)%Z
            ∧ (∀ j v, l !! j = Some v → (v ≤ m)%Z)
            ∧ (∀ j v, j < argmax_from bi bv i l - i → l !! j = Some v → (v < m)%Z)).
Proof.
  revert bi i bv. induction l as [|x r IH]; intros bi i bv.
  - left. by split.
  - cbn [argmax_from]. destruct (Z.ltb_spec bv x) as [Hlt|Hge].
    + right. destruct (IH i (S i) x) as [[Hk Hall]|(Hk & m & Hm & Hxm & Hle & Hbefore)].
      * rewrite Hk. split; [lia|]. exists x. rewrite Nat.sub_diag.
        split; [done|]. split; [done|]. split.
        -- intros [|j] v Hv; [injection Hv as <-; lia|].
           rewrite Forall_forall in Hall. apply Hall.
           by eapply list_elem_of_lookup_2.
        -- intros j v Hj. lia.
      * split; [lia|]. exists m.
        replace (argmax_from i x (S i) r - i)
          with (S (argmax_from i x (S i) r - S i)) by lia.
        split; [done|]. split; [lia|]. split.
        -- intros [|j] v Hv; [injection Hv as <-; lia|]. by eapply Hle.
        -- intros [|j] v Hj Hv; [injection Hv as <-; lia|].
           eapply Hbefore; [|exact Hv]. lia.
    + destruct (IH bi (S i) bv) as [[Hk Hall]|(Hk & m & Hm & Hxm & Hle & Hbefore)].
      * left. split; [done|]. by constructor.
      * right. split; [lia|]. exists m.
        replace (argmax_from bi bv (S i) r - i)
          with (S (argmax_from bi bv (S i) r - S i)) by lia.
        split; [done|]. split; [lia|]. split.
        -- intros [|j] v Hv; [injection Hv as <-; lia|]. by eapply Hle.
        -- intros [|j] v Hj Hv; [injection Hv as <-; lia|].
           eapply Hbefore; [|exact Hv]. lia.
Qed.

(** [argmax_row] finds the first greatest entry of a nonempty row. *)
Lemma argmax_row_first_max (row : list Z) :
  row ≠ [] → first_max row (argmax_row row).
Proof.
  destruct row as [|x r]; [done|]. intros _. cbn [argmax_row].
  destruct (argmax_from_spec r 0 1 x) as [[Hk Hall]|(Hk & m & Hm & Hxm & Hle & Hbefore)].
  - rewrite Hk. exists x. split; [done|]. split; [|intros j v Hj; lia].
    intros [|j] v Hv; [injection Hv as <-; lia|].
    rewrite Forall_forall in Hall. apply Hall. by eapply list_elem_of_lookup_2.
  - exists m. destruct (argmax_from 0 x 1 r) as [|k]; [lia|].
    cbn in Hm, Hbefore. rewrite Nat.sub_0_r in Hm, Hbefore.
    split; [done|]. split.
    + intros [|j] v Hv; [injection Hv as <-; lia|]. by eapply Hle.
    + intros [|j] v Hj Hv; [injection Hv as <-; lia|].
      eapply Hbefore; [|exact Hv]. lia.
Qed.

Lemma first_max_lt (row : list Z) (k : nat) : first_max row k → k < length row.
Proof. intros (m & Hm & _). by eapply lookup_lt_Some. Qed.

Lemma length_chunks (n c : nat) (l : list Z) : length (chunks n c l) = c.
Proof. revert l. induction c as [|c IH]; intros l; [done|]. cbn. by rewrite IH. Qed.

Lemma chunks_lookup (n c i : nat) (l : list Z) :
  i < c → chunks n c l !! i = Some (take n (drop (i * n) l)).
Proof.
  revert l i. induction c as [|c IH]; intros l i Hi; [lia|].
  destruct i as [|i]; cbn [chunks].
  - by rewrite Nat.mul_0_l, drop_0.
  - cbn [lookup list_lookup]. rewrite IH by lia. rewrite drop_drop.
    repeat f_equal; lia.
Qed.

Lemma chunks_rows (n c : nat) (l : list Z) :
  length l = c * n →
  Forall (λ r, length r = n) (chunks n c l) ∧ concat (chunks n c l) = l.
Proof.
  revert l. induction c as [|c IH]; intros l Hl.
  - destruct l; [by split|discriminate].
  - cbn [chunks concat].
    destruct (IH (drop n l)) as [Hall Hcat]; [rewrite length_drop; lia|].
    split.
    + constructor; [rewrite length_take; lia|done].
    + by rewrite Hcat, take_drop.
Qed.

(** X9. [tensor_to_name] on any tensor of scores that has one row per
    position and no more columns than the alphabet has characters returns
    normally, with one character per row: the alphabet character at the
    position of the first greatest score of the row. *)
Theorem tensor_to_name_scores (t : tensor) (L n : nat) (rest : list nat) :
  shape t = L :: rest ++ [n] → numel rest = 1 →
  0 < n ≤ n_letters → length (entries t) = L * n →
  ∃ s, tensor_to_name t = Ok s
       ∧ length s = L
       ∧ ∀ i c, s !! i = Some c →
           ∃ k, first_max (take n (drop (i * n) (entries t))) k
                ∧ all_letters !! k = Some c.
Proof.
  destruct t as [sh vs]. cbn [shape entries]. intros -> Hrest Hn Hlen.
  destruct (chunks_rows n L vs Hlen) as [Hall Hcat].
  set (rows := chunks n L vs) in *.
  assert (HL : length rows = L) by apply length_chunks.
  assert (Hmax : Forall (λ r, first_max r (argmax_row r)) rows).
  { eapply Forall_impl; [exact Hall|]. intros r Hr.
    apply argmax_row_first_max. intros ->. cbn in Hr. lia. }
  exists ((λ r, default hyphen (all_letters !! argmax_row r)) <$> rows).
  split; [|split].
  - rewrite <- Hcat, <- HL. rewrite tensor_to_name_rows by (done || lia).
    apply mapM_ok. rewrite Forall_forall in Hall, Hmax. apply Forall_forall.
    intros r Hr. pose proof (first_max_lt _ _ (Hmax r Hr)) as Hk.
    rewrite (Hall r Hr) in Hk.
    destruct (lookup_lt_is_Some_2 all_letters (argmax_row r)) as [c Hc];
      [unfold n_letters in Hn; lia|].
    rewrite Hc. cbn. by apply py_getitem_nat.
  - by rewrite length_fmap.
  - intros i c Hc. apply list_lookup_fmap_Some in Hc as (r & -> & Hr).
    assert (Hi : i < L) by (rewrite <- HL; by eapply lookup_lt_Some).
    unfold rows in Hr. rewrite chunks_lookup in Hr by done. injection Hr as Hr.
    exists (argmax_row r). rewrite Hr. split.
    + rewrite Forall_forall in Hmax. apply Hmax.
      eapply list_elem_of_lookup_2. unfold rows. rewrite chunks_lookup by done.
      by rewrite Hr.
    + rewrite Forall_forall in Hall, Hmax.
      assert (Hin : r ∈ rows).
      { eapply list_elem_of_lookup_2. unfold rows. rewrite chunks_lookup by done.
        by rewrite Hr. }
      pose proof (first_max_lt _ _ (Hmax r Hin)) as Hk. rewrite (Hall r Hin) in Hk.
      destruct (lookup_lt_is_Some_2 all_letters (argmax_row r)) as [c Hc];
        [unfold n_letters in Hn; lia|].
      by rewrite Hc.
Qed.

Lemma tensor_to_name_scores_witness :
  ∃ s, tensor_to_name (mkTensor [2; 3] [1; 5; 5; 0; 0; 0]%Z) = Ok s ∧ length s = 2.
Proof.
  destruct (tensor_to_name_scores (mkTensor [2; 3] [1; 5; 5; 0; 0; 0]%Z) 2 3 [])
    as (s & Hs & Hlen & _).
  - reflexivity.
  - reflexivity.
  - vm_compute. lia.
  - reflexivity.
  - by exists s.
Defined.

(** ** The category dicts of a loaded corpus *)

(** A repeated key keeps the index of its last occurrence. *)
Lemma dict_of_enumerate_lookup_last `{Countable K} (l : list K) (c : K) (i : nat) :
  dict_of_enumerate l !! c = Some i
  ↔ l !! i = Some c ∧ ∀ j, i < j → l !! j ≠ Some c.
Proof.
  revert i. induction l as [|x l IH] using rev_ind; intros i.
  - unfold dict_of_enumerate. cbn. rewrite lookup_empty. split; [done|].
    by intros [? _].
  - rewrite dict_of_enumerate_snoc. destruct (decide (c = x)) as [->|Hne].
    + rewrite lookup_insert_eq. split.
      * intros [= <-]. split; [by rewrite list_lookup_middle|].
        intros j Hj. rewrite lookup_ge_None_2; [done|].
        rewrite length_app. cbn. lia.
      * intros [Hi Hlast]. f_equal.
        pose proof (lookup_lt_Some _ _ _ Hi) as Hlt.
        rewrite length_app in Hlt. cbn in Hlt.
        destruct (decide (i = length l)) as [->|Hne]; [done|].
        exfalso. apply (Hlast (length l)); [lia|]. by rewrite list_lookup_middle.
    + rewrite lookup_insert_ne by done. rewrite IH. split.
      * intros [Hi Hlast]. split; [by apply lookup_app_l_Some|].
        intros j Hj Hc. apply lookup_app_Some in Hc as [Hc|[_ Hc]].
        -- by apply (Hlast j).
        -- apply list_lookup_singleton_Some in Hc as [_ ->]. done.
      * intros [Hi Hlast].
        apply lookup_app_Some in Hi as [Hi|[_ Hi]].
        -- split; [done|]. intros j Hj Hc. apply (Hlast j Hj).
           by apply lookup_app_l_Some.
        -- apply list_lookup_singleton_Some in Hi as [_ ->]. done.
Qed.

Lemma dict_of_enumerate_is_Some `{Countable K} (l : list K) (c : K) :
  is_Some (dict_of_enumerate l !! c) ↔ c ∈ l.
Proof.
  split.
  - intros [i Hi]. apply dict_of_enumerate_lookup_last in Hi as [Hi _].
    by eapply list_elem_of_lookup_2.
  - intros Hc. destruct (dict_of_enumerate l !! c) eqn:Hl; [by eexists|].
    induction l as [|x l IH] using rev_ind; [by apply elem_of_nil in Hc|].
    rewrite dict_of_enumerate_snoc in Hl.
    destruct (decide (c = x)) as [->|Hne]; [by rewrite lookup_insert_eq in Hl|].
    rewrite lookup_insert_ne in Hl by done. apply IH; [|done].
    apply elem_of_app in Hc as [Hc|Hc]; [done|].
    by apply list_elem_of_singleton in Hc.
Qed.

Lemma size_dict_of_indices {V} (l : list V) : size (dict_of_indices l) = length l.
Proof.
  induction l as [|x l IH] using rev_ind; [done|].
  rewrite dict_of_indices_snoc, length_app. cbn [length].
  rewrite map_size_insert_None.
  - rewrite IH. lia.
  - rewrite dict_of_indices_lookup. by apply lookup_ge_None_2.
Qed.

Lemma size_dict_of_enumerate_le `{Countable K} (l : list K) :
  size (dict_of_enumerate l) ≤ length l.
Proof.
  induction l as [|x l IH] using rev_ind; [done|].
  rewrite dict_of_enumerate_snoc, length_app. cbn [length].
  rewrite map_size_insert. destruct (dict_of_enumerate l !! x); cbn; lia.
Qed.

Lemma size_dict_of_enumerate_NoDup `{Countable K} (l : list K) :
  NoDup l → size (dict_of_enumerate l) = length l.
Proof.
  induction l as [|x l IH] using rev_ind; intros Hnd; [done|].
  apply NoDup_app in Hnd as (Hl & Hx & _).
  rewrite dict_of_enumerate_snoc, length_app. cbn [length].
  rewrite map_size_insert_None.
  - rewrite IH by done. lia.
  - apply dict_of_enumerate_None. intros Hin. apply (Hx x Hin), list_elem_of_here.
Qed.

(** X10. In the corpus loaded from any files, [cat2idx] knows exactly the
    categories of the matched files and gives each the position of the last
    matched file of that category; looking that position up in [idx2cat]
    gives the category back, also when several files share a category. *)
Theorem cat2idx_keeps_last_file `{U : Unicodedata} (fs : filesystem) (path : pystr)
    (ds : NameDataset) :
  load_data fs path = Ok ds →
  (∀ c i, cat2idx ds !! c = Some i
          ↔ (category_of <$> glob fs path) !! i = Some c
            ∧ ∀ j, i < j → (category_of <$> glob fs path) !! j ≠ Some c)
  ∧ (∀ c, is_Some (cat2idx ds !! c) ↔ c ∈ category_of <$> glob fs path)
  ∧ (∀ c i, cat2idx ds !! c = Some i → idx2cat ds !! i = Some c).
Proof.
  intros Hload. apply load_loop_spec in Hload as (contents & _ & -> & -> & _).
  split; [|split].
  - intros c i. apply dict_of_enumerate_lookup_last.
  - intros c. apply dict_of_enumerate_is_Some.
  - intros c i Hi. rewrite dict_of_indices_lookup.
    by apply dict_of_enumerate_lookup_last in Hi as [Hi _].
Qed.

Lemma cat2idx_keeps_last_file_witness :
  ∃ ds, @load_data latin_unicodedata fs_same_stem [] = Ok ds
        ∧ (cat2idx ds !! str "English" = Some 1 → idx2cat ds !! 1 = Some (str "English")).
Proof.
  destruct (@load_data latin_unicodedata fs_same_stem []) as [e|ds] eqn:Hload;
    [by vm_compute in Hload|].
  exists ds. split; [reflexivity|].
  exact (proj2 (proj2 (@cat2idx_keeps_last_file latin_unicodedata fs_same_stem [] ds Hload))
           (str "English") 1).
Defined.

(** X11. [idx2cat] has one entry per matched file and [cat2idx] at most as
    many; every category index is smaller than the number of matched files;
    and when the matched files have pairwise distinct categories, [cat2idx]
    has one entry per file too, so that every category index is smaller
    than [len(cat2idx)], the size the notebook gives to the output layer. *)
Theorem category_dict_sizes `{U : Unicodedata} (fs : filesystem) (path : pystr)
    (ds : NameDataset) :
  load_data fs path = Ok ds →
  size (idx2cat ds) = length (glob fs path)
  ∧ size (cat2idx ds) ≤ length (glob fs path)
  ∧ (∀ c k, cat2idx ds !! c = Some k → k < length (glob fs path))
  ∧ (NoDup (category_of <$> glob fs path) →
     size (cat2idx ds) = length (glob fs path)
     ∧ ∀ c k, cat2idx ds !! c = Some k → k < size (cat2idx ds)).
Proof.
  intros Hload. apply load_loop_spec in Hload as (contents & _ & -> & -> & _).
  assert (Hlt : ∀ c k, dict_of_enumerate (category_of <$> glob fs path) !! c = Some k
                       → k < length (glob fs path)).
  { intros c k Hk. apply dict_of_enumerate_lookup_last in Hk as [Hk _].
    apply lookup_lt_Some in Hk. by rewrite length_fmap in Hk. }
  split; [by rewrite size_dict_of_indices, length_fmap|].
  split; [rewrite <- (length_fmap category_of); apply size_dict_of_enumerate_le|].
  split; [exact Hlt|]. intros Hnd.
  rewrite size_dict_of_enumerate_NoDup, length_fmap by done. by split.
Qed.

Lemma category_dict_sizes_witness :
  ∃ ds, @load_data latin_unicodedata fs_two_categories [] = Ok ds
        ∧ size (idx2cat ds) = 2 ∧ size (cat2idx ds) = 2.
Proof.
  destruct (@load_data latin_unicodedata fs_two_categories []) as [e|ds] eqn:Hload;
    [by vm_compute in Hload|].
  exists ds. split; [reflexivity|].
  destruct (@category_dict_sizes latin_unicodedata fs_two_categories [] ds Hload)
    as (Hi & _ & _ & Hc).
  split; [exact Hi|]. apply Hc.
  apply (bool_decide_unpack _). by vm_compute.
Defined.

(** ** Reading the files *)

Lemma enumerate_from_app {A} (k : nat) (l1 l2 : list A) :
  enumerate_from k (l1 ++ l2)
  = enumerate_from k l1 ++ enumerate_from (k + length l1) l2.
Proof.
  revert k. induction l1 as [|x l1 IH]; intros k.
  - cbn. by rewrite Nat.add_0_r.
  - cbn [app length]. rewrite !enumerate_from_cons, IH. cbn [app].
    by rewrite Nat.add_succ_comm.
Qed.

Lemma load_loop_readable `{U : Unicodedata} (fs : filesystem) (files : list pystr)
    (k : nat) (st : NameDataset) :
  Forall (readable fs) files →
  ∃ ds, foldM (load_file fs) st (enumerate_from k files) = Ok ds.
Proof.
  intros Hall. revert k st. induction Hall as [|f files [c Hc] _ IH]; intros k st.
  - by eexists.
  - rewrite enumerate_from_cons. cbn [foldM]. rewrite load_file_spec, Hc.
    cbn [rbind Ok]. apply IH.
Qed.

(** X12. [load_data] returns a corpus exactly when every matched file can
    be read; otherwise it raises what the first unreadable file raises, and
    no partial corpus is returned. *)
Theorem load_data_reads_every_file `{U : Unicodedata} (fs : filesystem)
    (path : pystr) :
  ((∃ ds, load_data fs path = Ok ds) ↔ Forall (readable fs) (glob fs path))
  ∧ (∀ before f after e,
       glob fs path = before ++ f :: after →
       Forall (readable fs) before →
       read_text fs f = Raise e →
       load_data fs path = Raise e).
Proof.
  split; [split|].
  - intros [ds Hds]. apply load_loop_spec in Hds as (contents & Hread & _).
    apply Forall_forall. intros f Hf.
    apply list_elem_of_lookup in Hf as [i Hi].
    destruct (Forall2_lookup_l _ _ _ _ _ Hread Hi) as (c & _ & Hc). by exists c.
  - intros Hall. by apply load_loop_readable.
  - intros before f after e Hglob Hbefore Hf. unfold load_data, enumerate.
    rewrite Hglob, enumerate_from_app, foldM_app.
    destruct (load_loop_readable fs before 0 (mkNameDataset ∅ ∅ []) Hbefore)
      as [st Hst].
    rewrite Hst. cbn [rbind Ok]. rewrite enumerate_from_cons. cbn [foldM].
    by rewrite load_file_spec, Hf.
Qed.

Lemma load_data_reads_every_file_witness :
  @load_data latin_unicodedata fs_unreadable [] = Raise IOError.
Proof.
  refine (proj2 (@load_data_reads_every_file latin_unicodedata fs_unreadable [])
            [str "data/names/English.txt"] (str "data/names/Italian.txt") []
            IOError eq_refl _ _).
  - constructor; [|constructor]. by eexists.
  - by vm_compute.
Defined.

Lemma Forall_filter_holds {A} (P : A → Prop) `{∀ x, Decision (P x)} (l : list A) :
  Forall P (filter P l).
Proof. apply Forall_forall. intros x Hx. by apply list_elem_of_filter in Hx as [? _]. Qed.

Lemma unicode_to_ascii_no_marks `{U : Unicodedata} (s : pystr) :
  Forall (λ ch, category_is_Mn ch = false) (unicode_to_ascii s).
Proof. unfold unicode_to_ascii. apply Forall_filter_holds. Qed.

Lemma load_data_no_marks `{U : Unicodedata} (fs : filesystem) (path : pystr)
    (ds : NameDataset) :
  load_data fs path = Ok ds →
  Forall (λ item, Forall (λ ch, category_is_Mn ch = false) item.1) (data ds).
Proof.
  unfold load_data.
  apply (foldM_invariant
           (λ st, Forall (λ item, Forall (λ ch, category_is_Mn ch = false) item.1)
                         (data st))).
  - constructor.
  - intros st [idx f] st' Hst Hf. rewrite load_file_spec in Hf.
    apply rbind_ok in Hf as (content & _ & Hmk). injection Hmk as <-.
    cbn [data]. apply Forall_app. split; [done|].
    apply Forall_fmap, Forall_forall. intros line _. cbn.
    apply unicode_to_ascii_no_marks.
Qed.

(** X13. Every item of a loaded corpus has a text without any nonspacing
    mark, and a category that is the category of a matched file, that
    [cat2idx] maps to an index and that [idx2cat] maps back from it. *)
Theorem loaded_items_are_labelled `{U : Unicodedata} (fs : filesystem)
    (path : pystr) (ds : NameDataset) :
  load_data fs path = Ok ds →
  Forall (λ item,
            Forall (λ ch, category_is_Mn ch = false) item.1
            ∧ item.2 ∈ category_of <$> glob fs path
            ∧ ∃ k, cat2idx ds !! item.2 = Some k ∧ idx2cat ds !! k = Some item.2)
         (data ds).
Proof.
  intros Hload.
  pose proof (load_data_no_marks _ _ _ Hload) as Hmn.
  pose proof (load_data_categories _ _ _ Hload) as Hcat.
  apply load_loop_spec in Hload as (contents & _ & Hc2i & Hi2c & _).
  rewrite Forall_forall in Hmn, Hcat. apply Forall_forall. intros item Hitem.
  split; [by apply Hmn|]. destruct (Hcat item Hitem) as [k Hk].
  rewrite Hc2i in Hk. split.
  - apply dict_of_enumerate_is_Some. by exists k.
  - exists k. rewrite Hc2i, Hi2c, dict_of_indices_lookup. split; [done|].
    by apply dict_of_enumerate_lookup_last in Hk as [Hk _].
Qed.

Lemma loaded_items_are_labelled_witness :
  ∃ ds, @load_data latin_unicodedata fs_blank_lines [] = Ok ds
        ∧ Forall (λ item, item.2 ∈ [str "English"]) (data ds).
Proof.
  destruct (@load_data latin_unicodedata fs_blank_lines []) as [e|ds] eqn:Hload;
    [by vm_compute in Hload|].
  exists ds. split; [reflexivity|].
  eapply Forall_impl;
    [exact (@loaded_items_are_labelled latin_unicodedata fs_blank_lines [] ds Hload)|].
  intros item (_ & Hin & _). exact Hin.
Defined.

Lemma lstrip_blank (s : pystr) :
  Forall (λ ch, is_space ch = true) s → lstrip s = [].
Proof. induction 1 as [|c s Hc _ IH]; [done|]. cbn [lstrip]. by rewrite Hc. Qed.

Lemma file_lines_blank (content : pystr) :
  Forall (λ ch, is_space ch = true) content → file_lines content = [[]].
Proof.
  intros Hall. unfold file_lines, strip. by rewrite lstrip_blank.
Qed.

Lemma elem_of_concat_zip_with {A B C} (f : A → B → list C) (l1 : list A)
    (l2 : list B) (i : nat) (a : A) (b : B) (x : C) :
  l1 !! i = Some a → l2 !! i = Some b → x ∈ f a b →
  x ∈ concat (zip_with f l1 l2).
Proof.
  revert l2 i. induction l1 as [|a0 l1 IH]; intros [|b0 l2] [|i] Ha Hb Hx;
    try done; cbn [zip_with concat]; apply elem_of_app.
  - injection Ha as ->. injection Hb as ->. by left.
  - right. by eapply IH.
Qed.

Lemma sum_list_succ_ge {A} (g : A → nat) (l : list A) :
  length l ≤ sum_list ((λ x, S (g x)) <$> l).
Proof. induction l as [|x l IH]; cbn; lia. Qed.

(** X14. Every matched file contributes at least one item, so a loaded
    corpus has at least as many items as there are matched files; in
    particular a file whose text is empty or made of whitespace only is
    not skipped: it contributes an item with empty text. *)
Theorem blank_file_gives_an_empty_item `{U : Unicodedata} (fs : filesystem)
    (path : pystr) (ds : NameDataset) :
  load_data fs path = Ok ds →
  length (glob fs path) ≤ NameDataset_len ds
  ∧ ∀ f content,
      f ∈ glob fs path → read_text fs f = Ok content →
      Forall (λ ch, is_space ch = true) content →
      ([], category_of f) ∈ data ds.
Proof.
  intros Hload. apply load_loop_spec in Hload as (contents & Hread & _ & _ & Hdata).
  split.
  - unfold NameDataset_len. rewrite Hdata.
    rewrite length_concat_items by by eapply Forall2_length.
    rewrite (Forall2_length _ _ _ Hread). apply sum_list_succ_ge.
  - intros f content Hf Hc Hblank. rewrite Hdata.
    apply list_elem_of_lookup in Hf as [i Hi].
    destruct (Forall2_lookup_l _ _ _ _ _ Hread Hi) as (c & Hci & Hfc).
    rewrite Hc in Hfc. injection Hfc as <-.
    eapply elem_of_concat_zip_with; [exact Hi|exact Hci|].
    unfold items_of_file. rewrite file_lines_blank by done.
    cbn [fmap list_fmap]. rewrite unicode_to_ascii_nil. apply list_elem_of_here.
Qed.

Lemma blank_file_gives_an_empty_item_witness :
  ∃ ds, @load_data latin_unicodedata fs_blank_file [] = Ok ds
        ∧ ([], category_of english_txt) ∈ data ds.
Proof.
  destruct (@load_data latin_unicodedata fs_blank_file []) as [e|ds] eqn:Hload;
    [by vm_compute in Hload|].
  exists ds. split; [reflexivity|].
  refine (proj2 (@blank_file_gives_an_empty_item latin_unicodedata fs_blank_file [] ds Hload)
            english_txt (str "  " ++ [newline]) _ eq_refl _).
  - apply list_elem_of_here.
  - repeat constructor.
Defined.

(** ** The category of a file *)

Lemma basename_after_slash (dir rest : pystr) :
  slash ∉ rest → basename (dir ++ slash :: rest) = rest.
Proof.
  intros Hrest. induction dir as [|c dir IH].
  - cbn [app basename]. rewrite decide_False by done. by rewrite decide_True.
  - cbn [app basename]. rewrite decide_True; [done|].
    apply elem_of_app. right. apply list_elem_of_here.
Qed.

Lemma basename_no_slash (p : pystr) : slash ∉ p → basename p = p.
Proof.
  destruct p as [|c r]; [done|]. intros Hp. apply not_elem_of_cons in Hp as [Hc Hr].
  cbn [basename]. rewrite decide_False by done. by rewrite decide_False by done.
Qed.

Lemma rfind_from_absent (c : pychar) (i : nat) (acc : option nat) (p : pystr) :
  c ∉ p → rfind_from c i acc p = acc.
Proof.
  revert i acc. induction p as [|x p IH]; intros i acc Hp; [done|].
  apply not_elem_of_cons in Hp as [Hx Hp]. cbn [rfind_from].
  rewrite decide_False by done. by apply IH.
Qed.

Lemma rfind_from_last (c : pychar) (i : nat) (acc : option nat) (pre post : pystr) :
  c ∉ post → rfind_from c i acc (pre ++ c :: post) = Some (i + length pre).
Proof.
  intros Hpost. revert i acc. induction pre as [|x pre IH]; intros i acc.
  - cbn [app rfind_from length]. rewrite decide_True by done.
    rewrite rfind_from_absent by done. by rewrite Nat.add_0_r.
  - cbn [app rfind_from length]. rewrite IH. f_equal. lia.
Qed.

Lemma splitext_root_stem (stem ext : pystr) :
  stem ≠ [] → slash ∉ stem → dot ∉ stem → slash ∉ ext → dot ∉ ext →
  splitext_root (stem ++ dot :: ext) = stem.
Proof.
  intros Hne Hs1 Hd1 Hs2 Hd2. unfold splitext_root, rfind.
  rewrite rfind_from_last by done. cbn [Nat.add].
  rewrite rfind_from_absent.
  2:{ rewrite not_elem_of_app, not_elem_of_cons. by repeat split. }
  cbn [from_option]. rewrite decide_True by lia.
  rewrite Nat.sub_0_r, drop_0, take_app_length.
  destruct stem as [|c stem]; [done|]. apply not_elem_of_cons in Hd1 as [Hc _].
  cbn [forallb]. by rewrite bool_decide_eq_false_2.
Qed.

Lemma splitext_root_no_dot (p : pystr) : dot ∉ p → splitext_root p = p.
Proof. intros Hp. unfold splitext_root, rfind. by rewrite rfind_from_absent. Qed.

(** X15. The category of a matched file is its base name without the
    extension: for a name [stem.ext] below any directory, where neither
    stem nor extension holds a slash or a dot and the stem is not empty,
    the category is the stem, with or without the directory and with or
    without the extension. *)
Theorem category_of_path (dir stem ext : pystr) :
  stem ≠ [] → slash ∉ stem → dot ∉ stem → slash ∉ ext → dot ∉ ext →
  category_of (dir ++ slash :: stem ++ dot :: ext) = stem
  ∧ category_of (stem ++ dot :: ext) = stem
  ∧ category_of (dir ++ slash :: stem) = stem.
Proof.
  intros Hne Hs1 Hd1 Hs2 Hd2. unfold category_of.
  assert (Hfile : slash ∉ stem ++ dot :: ext).
  { rewrite not_elem_of_app, not_elem_of_cons. by repeat split. }
  split; [|split].
  - rewrite basename_after_slash by done. by apply splitext_root_stem.
  - rewrite basename_no_slash by done. by apply splitext_root_stem.
  - rewrite basename_after_slash by done. by apply splitext_root_no_dot.
Qed.

Lemma category_of_path_witness :
  category_of (str "data/names" ++ slash :: str "Czech" ++ dot :: str "txt")
  = str "Czech".
Proof.
  refine (proj1 (category_of_path (str "data/names") (str "Czech") (str "txt")
                   _ _ _ _ _)); try done;
    apply (bool_decide_unpack _); by vm_compute.
Defined.

(** ** Items by position *)

Lemma py_getitem_position {A} (s : list A) (i : Z) :
  (- Z.of_nat (length s) ≤ i < Z.of_nat (length s))%Z →
  ∃ x, py_getitem s i = Ok x
       ∧ s !! Z.to_nat (if (i <? 0)%Z then i + Z.of_nat (length s) else i)%Z
         = Some x.
Proof.
  intros Hi. unfold py_getitem. cbn zeta.
  set (j := (if (i <? 0)%Z then (i + Z.of_nat (length s))%Z else i)).
  assert (Hj : (0 ≤ j < Z.of_nat (length s))%Z).
  { unfold j. destruct (Z.ltb_spec i 0); lia. }
  destruct (Z.leb_spec 0 j); [|lia].
  destruct (Z.ltb_spec j (Z.of_nat (length s))); [|lia]. cbn [andb].
  destruct (lookup_lt_is_Some_2 s (Z.to_nat j)) as [x Hx]; [lia|].
  rewrite Hx. by exists x.
Qed.

Lemma py_getitem_outside {A} (s : list A) (i : Z) :
  ¬ (- Z.of_nat (length s) ≤ i < Z.of_nat (length s))%Z →
  py_getitem s i = Raise IndexError.
Proof.
  intros Hi. unfold py_getitem. cbn zeta.
  destruct (Z.ltb_spec i 0).
  - destruct (Z.leb_spec 0 (i + Z.of_nat (length s))); [|done].
    destruct (Z.ltb_spec (i + Z.of_nat (length s)) (Z.of_nat (length s))); [lia|done].
  - destruct (Z.leb_spec 0 i); [|lia].
    destruct (Z.ltb_spec i (Z.of_nat (length s))); [lia|done].
Qed.

Lemma py_getitem_negative {A} (s : list A) (i : Z) :
  (- Z.of_nat (length s) ≤ i < 0)%Z →
  py_getitem s i = py_getitem s (i + Z.of_nat (length s)).
Proof.
  intros Hi. unfold py_getitem. cbn zeta.
  destruct (Z.ltb_spec i 0); [|lia].
  by destruct (Z.ltb_spec (i + Z.of_nat (length s)) 0); [lia|].
Qed.

(** X16. [__getitem__] on a loaded corpus of [n] items: a position from
    [-n] to [n - 1] gives the encoding of the item's text and the index of
    its category, never a [KeyError]; a negative position counts from the
    end; any other position raises [IndexError]. *)
Theorem getitem_positions `{U : Unicodedata} (fs : filesystem) (path : pystr)
    (ds : NameDataset) (idx : Z) :
  load_data fs path = Ok ds →
  ((- Z.of_nat (NameDataset_len ds) ≤ idx < Z.of_nat (NameDataset_len ds))%Z →
   ∃ name c k,
     data ds !! Z.to_nat (if (idx <? 0)%Z
                          then idx + Z.of_nat (NameDataset_len ds) else idx)%Z
     = Some (name, c)
     ∧ cat2idx ds !! c = Some k
     ∧ NameDataset_getitem ds idx
       = Ok (mkTensor [length name; 1; n_letters] (encoded name),
             tensor1 (Z.of_nat k)))
  ∧ ((- Z.of_nat (NameDataset_len ds) ≤ idx < 0)%Z →
     NameDataset_getitem ds idx
     = NameDataset_getitem ds (idx + Z.of_nat (NameDataset_len ds)))
  ∧ (¬ (- Z.of_nat (NameDataset_len ds) ≤ idx < Z.of_nat (NameDataset_len ds))%Z →
     NameDataset_getitem ds idx = Raise IndexError).
Proof.
  intros Hload. apply load_data_categories in Hload. unfold NameDataset_len.
  split; [|split].
  - intros Hidx. destruct (py_getitem_position _ _ Hidx) as ([name c] & Hget & Hpos).
    destruct (getitem_item ds idx name c Hget Hload) as (k & Hk & Hitem).
    by exists name, c, k.
  - intros Hidx. unfold NameDataset_getitem. by rewrite py_getitem_negative.
  - intros Hidx. unfold NameDataset_getitem. by rewrite py_getitem_outside.
Qed.

Lemma getitem_positions_witness :
  ∃ ds, @load_data latin_unicodedata fs_two_categories [] = Ok ds
        ∧ NameDataset_getitem ds (-1) = NameDataset_getitem ds 2
        ∧ NameDataset_getitem ds 3 = Raise IndexError.
Proof.
  destruct (@load_data latin_unicodedata fs_two_categories []) as [e|ds] eqn:Hload;
    [by vm_compute in Hload|].
  assert (Hlen : NameDataset_len ds = 3).
  { vm_compute in Hload. by injection Hload as <-. }
  exists ds. split; [reflexivity|]. split.
  - pose proof (proj1 (proj2 (@getitem_positions latin_unicodedata fs_two_categories
                                [] ds (-1) Hload))) as Hneg.
    rewrite Hlen in Hneg. apply Hneg. lia.
  - apply (proj2 (proj2 (@getitem_positions latin_unicodedata fs_two_categories
                           [] ds 3 Hload))).
    rewrite Hlen. lia.
Defined.

Lemma tensor_to_name_encoded (name : pystr) :
  tensor_to_name (mkTensor [length name; 1; n_letters] (encoded name))
  = Ok (sanitize <$> name).
Proof. by apply (tensor_to_name_one_hot [1] name). Qed.

(** X17. What the notebook prints for a position of a loaded corpus is the
    stored item: decoding the tensor that [__getitem__] returns gives the
    item's text (characters outside the alphabet as hyphens), and looking
    the returned category index up in [idx2cat] gives the item's
    category. *)
Theorem show_item_returns_stored_item `{U : Unicodedata} (fs : filesystem)
    (path : pystr) (ds : NameDataset) (idx : Z) (name c : pystr) :
  load_data fs path = Ok ds →
  py_getitem (data ds) idx = Ok (name, c) →
  show_item ds idx = Ok (sanitize <$> name, c).
Proof.
  intros Hload Hget.
  pose proof (load_data_categories _ _ _ Hload) as Hcat.
  destruct (getitem_item ds idx name c Hget Hcat) as (k & Hk & Hitem).
  apply load_loop_spec in Hload as (contents & _ & Hc2i & Hi2c & _).
  unfold show_item. rewrite Hitem. cbn [rbind Ok].
  rewrite tensor_to_name_encoded. cbn [rbind Ok tensor_item tensor1 entries].
  unfold dict_getitem_int. destruct (Z.ltb_spec (Z.of_nat k) 0); [lia|].
  rewrite Nat2Z.id. unfold dict_getitem.
  rewrite Hc2i in Hk. apply dict_of_enumerate_lookup_last in Hk as [Hk _].
  by rewrite Hi2c, dict_of_indices_lookup, Hk.
Qed.

Lemma show_item_returns_stored_item_witness :
  ∃ ds, @load_data latin_unicodedata fs_two_categories [] = Ok ds
        ∧ show_item ds 2 = Ok (str "Rossi", str "Italian").
Proof.
  destruct (@load_data latin_unicodedata fs_two_categories []) as [e|ds] eqn:Hload;
    [by vm_compute in Hload|].
  assert (Hget : py_getitem (data ds) 2 = Ok (str "Rossi", str "Italian")).
  { vm_compute in Hload. injection Hload as <-. by vm_compute. }
  exists ds. split; [reflexivity|].
  exact (@show_item_returns_stored_item latin_unicodedata fs_two_categories []
           ds 2%Z (str "Rossi") (str "Italian") Hload Hget).
Defined.
